(** * Native-dependency compatibility check of the Capgo CLI (src/utils.ts)

    A shallow embedding of [nativeFileRegex], [getLocalDepenencies],
    [getRemoteDepenencies] and [checkCompatibility], and the properties
    of the reconciled compatibility report.

    Conventions of the embedding:
    - a JavaScript value that reaches the code from [JSON.parse] or from
      the metadata store is a [jsval];
    - [p.log.error] appends a [message] to a log, [program.error('')]
      (commander's [Command.error], with no exit override installed in
      this file) ends the process, and an uncaught [TypeError] rejects
      the promise of the enclosing async function: the three ways a call
      can end are the constructors of [outcome];
    - the file system and the metadata store are read through the fields
      of [Env] and through the [SupabaseClient] argument.

    The other functions of the file that can be embedded without their
    libraries follow, with their own messages and endings. *)

From Stdlib Require Import List String Ascii Bool Arith NArith QArith Lia.
From Stdlib Require Import DecimalString.
Import ListNotations.

Local Open Scope nat_scope.
Local Open Scope string_scope.
Local Open Scope list_scope.

Set Implicit Arguments.
Set Warnings "-register-all".

(* ================================================================= *)
(** ** JavaScript values *)

(** The values [JSON.parse] and the store client can hand over.  An
    object is the list of its own enumerable properties in enumeration
    order; an engine never lists a key twice, see [wf_object]. *)
Inductive jsval : Type :=
| JUndefined
| JNull
| JBool (b : bool)
| JNum (q : Q)
| JStr (s : string)
| JArr (elems : list jsval)
| JObj (props : list (string * jsval)).

Inductive jstype : Type :=
| TUndefined | TObject | TBoolean | TNumber | TString.

(** [typeof v]; note [typeof null === 'object'] and that arrays are
    objects. *)
Definition typeof (v : jsval) : jstype :=
  match v with
  | JUndefined => TUndefined
  | JNull => TObject
  | JBool _ => TBoolean
  | JNum _ => TNumber
  | JStr _ => TString
  | JArr _ => TObject
  | JObj _ => TObject
  end.

Definition jstype_eqb (a b : jstype) : bool :=
  match a, b with
  | TUndefined, TUndefined | TObject, TObject | TBoolean, TBoolean
  | TNumber, TNumber | TString, TString => true
  | _, _ => false
  end.

(** [!!v]: the falsy values are [undefined], [null], [false], zero and
    the empty string. *)
Definition truthy (v : jsval) : bool :=
  match v with
  | JUndefined | JNull => false
  | JBool b => b
  | JNum q => negb (Qeq_bool q 0)
  | JStr s => negb (s =? "")
  | JArr _ | JObj _ => true
  end.

Fixpoint assoc {V : Type} (k : string) (l : list (string * V)) : option V :=
  match l with
  | [] => None
  | (k', v) :: tl => if k' =? k then Some v else assoc k tl
  end.

(** Keys of an object are pairwise distinct. *)
Definition wf_object (props : list (string * jsval)) : Prop :=
  NoDup (map fst props).

(* ================================================================= *)
(** ** Effects: the error log, process exit, uncaught exceptions *)

Inductive field : Type := DataField | NameField | VersionField.

(** One constructor per [p.log.error] call of the three functions, named
    after the error it reports.
    - [ManifestMissing]: "Missing package.json, you need to be in a capacitor project"
    - [ManifestMalformed]: "Invalid package.json, JSON parsing failed"
    - [DependenciesSectionMissing]: "Missing dependencies section in package.json"
    - [DependencyValueInvalid key]: "Invalid dependency key: ..., expected string, got ..."
    - [InstalledPackagesMissing]: "Missing node_modules folder, please run npm install"
    - [DependencyFolderMissing key]: "Missing dependency key, please run npm install"
    - [ScanFailed key]: "Error reading node_modulses files for key package"
    - [ChannelLookupFailed m]: "Error fetching native packages: m"
    - [NativeMetadataUnreadable]: "Error parsing native packages"
    - [NativeMetadataMissing]: "Error parsing native packages, perhaps the metadata does not exist?"
    - [NativeMetadataMalformed f]: "Invalid remote native package data / name / version: ..." *)
Inductive message : Type :=
| ManifestMissing
| ManifestMalformed
| DependenciesSectionMissing
| DependencyValueInvalid (key : string)
| InstalledPackagesMissing
| DependencyFolderMissing (key : string)
| ScanFailed (key : string)
| ChannelLookupFailed (msg : string)
| NativeMetadataUnreadable
| NativeMetadataMissing
| NativeMetadataMalformed (f : field).

Inductive exn : Type := TypeError.

Inductive outcome (A : Type) : Type :=
| Returned (a : A)   (* the call returns / the promise is fulfilled *)
| Exited             (* program.error(''): the process has exited *)
| Threw (e : exn).   (* an exception nobody catches *)

Arguments Returned {A} a.
Arguments Exited {A}.
Arguments Threw {A} e.

(** A computation: what it logged and how it ended. *)
Definition M (A : Type) : Type := (list message * outcome A)%type.

Definition ret {A} (a : A) : M A := ([], Returned a).

Definition bind {A B} (m : M A) (f : A -> M B) : M B :=
  match m with
  | (l, Returned a) => let (l', o) := f a in (l ++ l', o)
  | (l, Exited) => (l, Exited)
  | (l, Threw e) => (l, Threw e)
  end.

Definition p_log_error (m : message) : M unit := ([m], Returned tt).
Definition program_error {A} : M A := ([], Exited).
Definition throw {A} (e : exn) : M A := ([], Threw e).

(** [try { m } catch (err) { handler }] *)
Definition try_catch {A} (m : M A) (handler : exn -> M A) : M A :=
  match m with
  | (l, Threw e) => let (l', o) := handler e in (l ++ l', o)
  | other => other
  end.

Declare Scope js_scope.
Delimit Scope js_scope with js.
Notation "x <- m ;; k" := (bind m (fun x => k))
  (at level 61, m at next level, right associativity) : js_scope.
Notation "m ;; k" := (bind m (fun _ => k))
  (at level 61, right associativity) : js_scope.
Local Open Scope js_scope.

Definition log_of {A} (m : M A) : list message := fst m.
Definition outcome_of {A} (m : M A) : outcome A := snd m.

(** The run failed with error [e]: the process exited and [e] was
    reported. *)
Definition fails_with {A} (m : M A) (e : message) : Prop :=
  outcome_of m = Exited /\ In e (log_of m).

(** Reading property [k] of [v], as [v.k] or [const { k } = v] do.  It
    throws on [null] and [undefined].  The names this program reads
    ([dependencies], [version], [native_packages], [name]) are neither
    own nor inherited properties of arrays, strings, numbers and
    booleans, so those yield [undefined]. *)
Definition get_prop (v : jsval) (k : string) : M jsval :=
  match v with
  | JUndefined | JNull => throw TypeError
  | JObj props => ret (match assoc k props with Some x => x | None => JUndefined end)
  | JBool _ | JNum _ | JStr _ | JArr _ => ret JUndefined
  end.

(** Decimal index names, ["0"], ["1"], ... *)
Definition index_name (i : nat) : string :=
  NilEmpty.string_of_uint (Nat.to_uint i).

Definition indexed {V : Type} (l : list V) : list (string * V) :=
  combine (map index_name (seq 0 (List.length l))) l.

(** [Object.entries(v)] for a value that is neither [null] nor
    [undefined]: the own enumerable string-keyed properties. *)
Definition Object_entries (v : jsval) : list (string * jsval) :=
  match v with
  | JObj props => props
  | JArr elems => indexed elems
  | JStr s => indexed (map (fun c => JStr (String c "")) (list_ascii_of_string s))
  | _ => []
  end.

(* ================================================================= *)
(** ** Regular expressions and [RegExp.prototype.test] *)

Module RegExp.

(** The fragment of the pattern language that [nativeFileRegex] is
    written in: character classes, literals, concatenation,
    alternation and iteration.  Capture groups do not change what
    [test] answers and are not represented. *)
Inductive t : Type :=
| Void
| Eps
| Class (p : ascii -> bool)
| Cat (r s : t)
| Alt (r s : t)
| Star (r : t).

Definition Plus (r : t) : t := Cat r (Star r).

Definition Chr (c : ascii) : t := Class (Ascii.eqb c).

Fixpoint Lit (s : string) : t :=
  match s with
  | EmptyString => Eps
  | String c s' => Cat (Chr c) (Lit s')
  end.

Fixpoint nullable (r : t) : bool :=
  match r with
  | Void => false
  | Eps => true
  | Class _ => false
  | Cat r s => nullable r && nullable s
  | Alt r s => nullable r || nullable s
  | Star _ => true
  end.

(** What is left of [r] once it has read character [c]. *)
Fixpoint deriv (c : ascii) (r : t) : t :=
  match r with
  | Void | Eps => Void
  | Class p => if p c then Eps else Void
  | Cat r s =>
      if nullable r then Alt (Cat (deriv c r) s) (deriv c s)
      else Cat (deriv c r) s
  | Alt r s => Alt (deriv c r) (deriv c s)
  | Star r => Cat (deriv c r) (Star r)
  end.

(** [r] matches the whole of [s]. *)
Fixpoint matches (r : t) (s : list ascii) : bool :=
  match s with
  | [] => nullable r
  | c :: s' => matches (deriv c r) s'
  end.

Fixpoint tails (s : list ascii) : list (list ascii) :=
  match s with
  | [] => [[]]
  | _ :: s' => s :: tails s'
  end.

(** [/r$/.test(s)] without flags: a match may start at any position
    and has to end where the subject ends. *)
Definition test_at_end (r : t) (s : string) : bool :=
  existsb (matches r) (tails (list_ascii_of_string s)).

(** The strings a pattern denotes. *)
Fixpoint Lang (r : t) (s : list ascii) : Prop :=
  match r with
  | Void => False
  | Eps => s = []
  | Class p => exists c, s = [c] /\ p c = true
  | Cat r1 r2 => exists s1 s2, s = s1 ++ s2 /\ Lang r1 s1 /\ Lang r2 s2
  | Alt r1 r2 => Lang r1 s \/ Lang r2 s
  | Star r1 => exists ss, s = List.concat ss /\ Forall (fun x => Lang r1 x) ss
  end.

End RegExp.

Definition in_range (lo hi c : ascii) : bool :=
  (N_of_ascii lo <=? N_of_ascii c)%N && (N_of_ascii c <=? N_of_ascii hi)%N.

(** [[A-Za-z0-9]] *)
Definition alnum (c : ascii) : bool :=
  in_range "A" "Z" c || in_range "a" "z" c || in_range "0" "9" c.

Definition native_extensions : list string := ["java"; "swift"; "kt"; "scala"].

(** [const nativeFileRegex = /([A-Za-z0-9]+)\.(java|swift|kt|scala)$/] *)
Definition nativeFileRegex : RegExp.t :=
  RegExp.Cat (RegExp.Plus (RegExp.Class alnum))
    (RegExp.Cat (RegExp.Chr ".")
       (RegExp.Alt (RegExp.Lit "java")
          (RegExp.Alt (RegExp.Lit "swift")
             (RegExp.Alt (RegExp.Lit "kt") (RegExp.Lit "scala"))))).

Definition nativeFileRegex_test (fileName : string) : bool :=
  RegExp.test_at_end nativeFileRegex fileName.

(* ================================================================= *)
(** ** The data of a reconciliation run *)

(** An element of [dependenciesObject].  [native] is [None] for the
    object literal [{name: key, version: value}] that carries no
    [native] property. *)
Module Local.
Record t : Type := mk { name : string; version : string; native : option bool }.
End Local.

(** An element of the remote list once it has passed the type checks,
    [{ name: string, version: string }]. *)
Module Remote.
Record t : Type := mk { name : string; version : string }.
End Remote.

(** An element of [finalDepenencies]; [None] is [undefined]. *)
Module Entry.
Record t : Type :=
  mk { name : string; localVersion : option string; remoteVersion : option string }.
End Entry.

(** The three shapes of the union type of [finalDepenencies]. *)
Definition Matched (n l r : string) : Entry.t := Entry.mk n (Some l) (Some r).
Definition LocalOnly (n l : string) : Entry.t := Entry.mk n (Some l) None.
Definition RemoteOnly (n r : string) : Entry.t := Entry.mk n None (Some r).

(** [!!a.native] *)
Definition is_native (a : Local.t) : bool :=
  match Local.native a with
  | Some b => b
  | None => false
  end.

(** A JavaScript [Map] with string keys: the entries in insertion order.
    Setting a key that is present replaces its value where it stands. *)
Module JsMap.
Section WithValue.
Variable V : Type.

Definition t : Type := list (string * V).

Fixpoint set (k : string) (v : V) (m : t) : t :=
  match m with
  | [] => [(k, v)]
  | (k', v') :: tl =>
      if k' =? k then (k', v) :: tl else (k', v') :: set k v tl
  end.

(** [new Map(entries)] *)
Definition of_entries (entries : list (string * V)) : t :=
  fold_left (fun m kv => set (fst kv) (snd kv) m) entries [].

(** [m.get(k)] *)
Definition get (m : t) (k : string) : option V := assoc k m.

(** [[...m]] *)
Definition entries (m : t) : list (string * V) := m.

Definition keys (m : t) : list string := map fst m.

End WithValue.
End JsMap.

(* ================================================================= *)
(** ** The environment of a run *)

(** What the local side reads.
    - [existsSync path];
    - [packageJson]: the value of
      [JSON.parse(readFileSync('./package.json', 'utf8'))], [None] when
      reading or parsing throws;
    - [promiseFiles dir]: the file paths under [dir], [None] when the
      promise is rejected;
    - [settleTime dir]: when the promise of [promiseFiles dir] settles;
      the scans of one run are started together and settle in any
      order. *)
Record Env : Type := {
  existsSync : string -> bool;
  packageJson : option jsval;
  promiseFiles : string -> option (list string);
  settleTime : string -> nat
}.

(** The answer of the [channels] query, [{ data, error }];
    [error] carries [error.message]. *)
Record Response : Type := { data : jsval; error : option string }.

(** The store client, reduced to the one query made here: the row of
    the channel named [channel] of application [appId], with the
    [native_packages] of its version. *)
Definition SupabaseClient : Type := string -> string -> Response.

(* ================================================================= *)
(** ** [getLocalDepenencies] *)

Definition log_all (ms : list message) : M unit := (ms, Returned tt).

(** [if (c) { p.log.error(m); program.error('') }] *)
Definition fail_if (c : bool) (m : message) : M unit :=
  if c then p_log_error m ;; program_error else ret tt.

(** The cast [dependencies as Record<string, string>]. *)
Definition as_string (v : jsval) : string :=
  match v with
  | JStr s => s
  | _ => ""
  end.

(** The loop over [Object.entries(dependencies)], lines 424-429. *)
Fixpoint checkValues (entries : list (string * jsval)) : M unit :=
  match entries with
  | [] => ret tt
  | (key, value) :: tl =>
      fail_if (negb (jstype_eqb (typeof value) TString))
              (DependencyValueInvalid key) ;;
      checkValues tl
  end.

(** Lines 403-434: the checks on [package.json] and [node_modules];
    the result is the value of [dependencies]. *)
Definition readManifest (env : Env) : M jsval :=
  fail_if (negb (existsSync env "./package.json")) ManifestMissing ;;
  packageJson <-
    match packageJson env with
    | Some v => ret v
    | None => p_log_error ManifestMalformed ;; program_error
    end ;;
  dependencies <- get_prop packageJson "dependencies" ;;
  fail_if (negb (truthy dependencies)) DependenciesSectionMissing ;;
  checkValues (Object_entries dependencies) ;;
  fail_if (negb (existsSync env "./node_modules/")) InstalledPackagesMissing ;;
  ret dependencies.

(** [`./node_modules/${key}`] *)
Definition dependencyFolder (key : string) : string := "./node_modules/" ++ key.

(** Lines 452-454: [files.find(...)] yields a matching path or
    [undefined], and the [if] tests that result for truthiness. *)
Definition hasNativeFiles (files : list string) : bool :=
  match find nativeFileRegex_test files with
  | Some fileName => truthy (JStr fileName)
  | None => false
  end.

(** The callback of lines 440-467 for one dependency, up to the point
    where its promise settles: the record it returns ([inl]), or the
    key of a scan whose promise was rejected ([inr]), for which the
    handler of lines 456-460 runs. *)
Definition scanOne (env : Env) (kv : string * jsval) : Local.t + string :=
  let (key, value) := kv in
  if negb (existsSync env (dependencyFolder key)) then
    inl (Local.mk key (as_string value) None)
  else
    match promiseFiles env (dependencyFolder key) with
    | Some files => inl (Local.mk key (as_string value) (Some (hasNativeFiles files)))
    | None => inr key
    end.

Fixpoint lefts {A B : Type} (l : list (A + B)) : list A :=
  match l with
  | [] => []
  | inl a :: tl => a :: lefts tl
  | inr _ :: tl => lefts tl
  end.

Fixpoint rights {A B : Type} (l : list (A + B)) : list B :=
  match l with
  | [] => []
  | inl _ :: tl => rights tl
  | inr b :: tl => b :: rights tl
  end.

(** Among the rejected scans, the one whose promise settles first (the
    one started first among those that settle together). *)
Fixpoint earliest (env : Env) (keys : list string) : option string :=
  match keys with
  | [] => None
  | key :: tl =>
      match earliest env tl with
      | None => Some key
      | Some key' =>
          if (settleTime env (dependencyFolder key)
              <=? settleTime env (dependencyFolder key'))%nat
          then Some key else Some key'
      end
  end.

Definition folderMissing (env : Env) (kv : string * jsval) : bool :=
  negb (existsSync env (dependencyFolder (fst kv))).

(** What the callbacks report before their first [await], line 445. *)
Definition missingFolderMessages (env : Env) (entries : list (string * jsval))
  : list message :=
  map (fun kv => DependencyFolderMissing (fst kv)) (filter (folderMissing env) entries).

(** Lines 436-473.  [map] runs every callback up to its first [await],
    so each missing folder is reported before any scan settles.  The
    handler of a rejected scan ends the process, hence no promise given
    to [Promise.all] is ever rejected and its [.catch(() => [])] never
    runs. *)
Definition scanDependencies (env : Env) (dependencies : jsval) : M (list Local.t) :=
  let entries := Object_entries dependencies in
  let anyInvalid := existsb (folderMissing env) entries in
  log_all (missingFolderMessages env entries) ;;
  let settled := map (scanOne env) entries in
  match earliest env (rights settled) with
  | Some key => p_log_error (ScanFailed key) ;; program_error
  | None =>
      let dependenciesObject := lefts settled in
      if anyInvalid
         || existsb (fun a => match Local.native a with None => true | Some _ => false end)
                    dependenciesObject
      then program_error
      else ret dependenciesObject
  end.

Definition getLocalDepenencies (env : Env) : M (list Local.t) :=
  dependencies <- readManifest env ;;
  scanDependencies env dependencies.

(* ================================================================= *)
(** ** [getRemoteDepenencies] *)

(** The callback of [forEach], lines 507-523, returning the entry at
    the type it is cast to on line 525. *)
Definition checkEntry (data : jsval) : M Remote.t :=
  fail_if (negb (jstype_eqb (typeof data) TObject)) (NativeMetadataMalformed DataField) ;;
  name <- get_prop data "name" ;;
  version <- get_prop data "version" ;;
  fail_if (negb (truthy name) || negb (jstype_eqb (typeof name) TString))
          (NativeMetadataMalformed NameField) ;;
  fail_if (negb (truthy version) || negb (jstype_eqb (typeof version) TString))
          (NativeMetadataMalformed VersionField) ;;
  ret (Remote.mk (as_string name) (as_string version)).

Fixpoint forEach {A B : Type} (f : A -> M B) (l : list A) : M (list B) :=
  match l with
  | [] => ret []
  | a :: tl => b <- f a ;; bs <- forEach f tl ;; ret (b :: bs)
  end.

(** Line 525: [new Map(packages.map(a => [a.name, a]))] *)
Definition mapPackages (packages : list Remote.t) : JsMap.t Remote.t :=
  JsMap.of_entries (map (fun a => (Remote.name a, a)) packages).

Definition getRemoteDepenencies (supabase : SupabaseClient) (appId channel : string)
  : M (JsMap.t Remote.t) :=
  let response := supabase appId channel in
  let remoteNativePackages := data response in
  match error response with
  | Some msg => p_log_error (ChannelLookupFailed msg) ;; program_error
  | None => ret tt
  end ;;
  castedRemoteNativePackages <-
    try_catch
      (version <- get_prop remoteNativePackages "version" ;;
       get_prop version "native_packages")
      (fun _ => p_log_error NativeMetadataUnreadable ;; program_error) ;;
  fail_if (negb (truthy castedRemoteNativePackages)) NativeMetadataMissing ;;
  match castedRemoteNativePackages with
  | JArr elems =>
      packages <- forEach checkEntry elems ;;
      ret (mapPackages packages)
  | _ => throw TypeError   (* [forEach] is not a function *)
  end.

(* ================================================================= *)
(** ** [checkCompatibility] *)

Record Compatibility : Type := {
  finalCompatibility : list Entry.t;
  localDependencies : list Local.t
}.

(** Lines 548-564: the native local dependencies against the remote map. *)
Definition localPass (dependenciesObject : list Local.t)
    (mappedRemoteNativePackages : JsMap.t Remote.t) : list Entry.t :=
  map (fun local =>
         match JsMap.get mappedRemoteNativePackages (Local.name local) with
         | Some remotePackage =>
             Entry.mk (Local.name local) (Some (Local.version local))
                      (Some (Remote.version remotePackage))
         | None =>
             Entry.mk (Local.name local) (Some (Local.version local)) None
         end)
      (filter is_native dependenciesObject).

(** Lines 566-568: the remote entries no local dependency is named as. *)
Definition removeNotInLocal (dependenciesObject : list Local.t)
    (mappedRemoteNativePackages : JsMap.t Remote.t) : list Entry.t :=
  map (fun kv => Entry.mk (fst kv) None (Some (Remote.version (snd kv))))
      (filter (fun kv =>
                 match find (fun a => Local.name a =? fst kv) dependenciesObject with
                 | None => true
                 | Some _ => false
                 end)
              (JsMap.entries mappedRemoteNativePackages)).

Definition finalDepenencies (dependenciesObject : list Local.t)
    (mappedRemoteNativePackages : JsMap.t Remote.t) : list Entry.t :=
  localPass dependenciesObject mappedRemoteNativePackages
  ++ removeNotInLocal dependenciesObject mappedRemoteNativePackages.

Definition checkCompatibility (env : Env) (supabase : SupabaseClient)
    (appId channel : string) : M Compatibility :=
  dependenciesObject <- getLocalDepenencies env ;;
  mappedRemoteNativePackages <- getRemoteDepenencies supabase appId channel ;;
  ret {| finalCompatibility := finalDepenencies dependenciesObject mappedRemoteNativePackages;
         localDependencies := dependenciesObject |}.

(* ================================================================= *)
(** ** The native-file pattern in words *)

(** A path that ends in one or more alphanumeric characters, a dot, and
    one of the extensions java, swift, kt, scala.  [nativeFileRegex] is
    compared with this reading in [nativeFileRegex_test_spec]. *)
Definition native_source_path (path : string) : Prop :=
  exists prefix identifier extension : string,
    path = (prefix ++ identifier ++ "." ++ extension)%string
    /\ identifier <> ""
    /\ forallb alnum (list_ascii_of_string identifier) = true
    /\ In extension native_extensions.

(** An entry of the remote list as the validation wants it: an object
    with a non-empty string [name] and a non-empty string [version].
    [checkEntry] is compared with this reading in [checkEntry_returned]
    and [checkEntry_invalid]. *)
Definition valid_entry (data : jsval) : Prop :=
  exists props name version,
    data = JObj props
    /\ assoc "name" props = Some (JStr name) /\ name <> ""
    /\ assoc "version" props = Some (JStr version) /\ version <> "".

(* ================================================================= *)
(** ** Inputs used in the examples below *)

Module Examples.

(** The example of the specification:
    L = {A 1.0.0 native, B 2.0.0 native, C 1.0.0 not native},
    R = {A 1.0.0, D 3.0.0}. *)
Definition L : list Local.t :=
  [ Local.mk "A" "1.0.0" (Some true);
    Local.mk "B" "2.0.0" (Some true);
    Local.mk "C" "1.0.0" (Some false) ].

Definition R : JsMap.t Remote.t :=
  mapPackages [ Remote.mk "A" "1.0.0"; Remote.mk "D" "3.0.0" ].

(** A package that is installed without native files while the
    channel records it as native. *)
Definition shadowL : list Local.t := [ Local.mk "X" "1.0.0" (Some false) ].

Definition shadowR : JsMap.t Remote.t := mapPackages [ Remote.mk "X" "1.0.0" ].

(** A project and a channel that produce [shadowL] and [shadowR]:
    package.json is [{"dependencies": {"X": "1.0.0"}}], the installed
    package holds one script, and the channel records X 1.0.0. *)
Definition shadowEnv : Env :=
  {| existsSync := fun _ => true;
     packageJson := Some (JObj [("dependencies", JObj [("X", JStr "1.0.0")])]);
     promiseFiles := fun _ => Some ["node_modules/X/index.js"];
     settleTime := fun _ => 0 |}.

Definition shadowStore : SupabaseClient :=
  fun _ _ =>
    {| data := JObj [("version",
                 JObj [("native_packages",
                    JArr [JObj [("name", JStr "X"); ("version", JStr "1.0.0")]])])];
       error := None |}.

(** A project with one native and one script-only dependency, both
    installed. *)
Definition manifest : jsval :=
  JObj [("name", JStr "app");
        ("dependencies",
         JObj [("@capacitor/camera", JStr "5.0.0"); ("lodash", JStr "4.17.21")])].

Definition files (dir : string) : option (list string) :=
  if dir =? "./node_modules/@capacitor/camera" then
    Some ["node_modules/@capacitor/camera/package.json";
          "node_modules/@capacitor/camera/ios/Plugin/CameraPlugin.swift"]
  else Some ["node_modules/lodash/lodash.js"].

Definition projectEnv : Env :=
  {| existsSync := fun _ => true;
     packageJson := Some manifest;
     promiseFiles := files;
     settleTime := fun _ => 0 |}.

(** The same project with the folder of lodash missing. *)
Definition missingFolderEnv : Env :=
  {| existsSync := fun path => negb (path =? "./node_modules/lodash");
     packageJson := Some manifest;
     promiseFiles := files;
     settleTime := fun _ => 0 |}.

(** The same project where reading the tree of lodash fails. *)
Definition scanFailedEnv : Env :=
  {| existsSync := fun _ => true;
     packageJson := Some manifest;
     promiseFiles := fun dir => if dir =? "./node_modules/lodash" then None else files dir;
     settleTime := fun _ => 0 |}.

(** A project whose package.json holds the JSON text [null]. *)
Definition nullManifestEnv : Env :=
  {| existsSync := fun _ => true;
     packageJson := Some JNull;
     promiseFiles := files;
     settleTime := fun _ => 0 |}.

(** The row of a channel whose version records [native_packages]. *)
Definition channelRow (native_packages : jsval) : SupabaseClient :=
  fun _ _ =>
    {| data := JObj [("version", JObj [("native_packages", native_packages)])];
       error := None |}.

(** A channel whose list holds a valid entry and a [null]. *)
Definition nullEntryStore : SupabaseClient :=
  channelRow (JArr [JObj [("name", JStr "@capacitor/camera"); ("version", JStr "5.0.0")];
                    JNull]).

(** A channel whose list holds a valid entry and one with a numeric name. *)
Definition numericNameStore : SupabaseClient :=
  channelRow (JArr [JObj [("name", JStr "@capacitor/camera"); ("version", JStr "5.0.0")];
                    JObj [("name", JNum 7); ("version", JStr "1.0.0")]]).

(** A channel whose version was never analysed, and one known to have
    no native package. *)
Definition noMetadataStore : SupabaseClient :=
  fun _ _ => {| data := JObj [("version", JObj [])]; error := None |}.

Definition emptyListStore : SupabaseClient := channelRow (JArr []).

End Examples.

(* ================================================================= *)
(** * The other functions of utils.ts *)

(** ** Messages, and the ways a call of these functions can end *)

(** What is written for the user: [p.log.info], [p.log.warn],
    [p.log.error] and [console.log], each with its text. *)
Inductive notice : Type :=
| Info (text : string)
| Warn (text : string)
| Error (text : string)
| Console (text : string).

(** A call returns, ends the process through [program.error('')], or
    throws (rejects) with an error that nobody catches. *)
Inductive ending (A : Type) : Type :=
| Ok (a : A)
| Exit
| Throw (err : string).

Arguments Ok {A} a.
Arguments Exit {A}.
Arguments Throw {A} err.

Definition IO (A : Type) : Type := (list notice * ending A)%type.

Definition pure {A} (a : A) : IO A := ([], Ok a).

Definition andThen {A B} (m : IO A) (f : A -> IO B) : IO B :=
  match m with
  | (l, Ok a) => let (l', o) := f a in (l ++ l', o)
  | (l, Exit) => (l, Exit)
  | (l, Throw e) => (l, Throw e)
  end.

Definition say (n : notice) : IO unit := ([n], Ok tt).
Definition exit {A} : IO A := ([], Exit).
Definition raise {A} (err : string) : IO A := ([], Throw err).

(** [try { m } catch { handler }] *)
Definition catch {A} (m : IO A) (handler : IO A) : IO A :=
  match m with
  | (l, Throw _) => let (l', o) := handler in (l ++ l', o)
  | other => other
  end.

Declare Scope io_scope.
Delimit Scope io_scope with io.
Notation "x <- m ;; k" := (andThen m (fun x => k))
  (at level 61, m at next level, right associativity) : io_scope.
Notation "m ;; k" := (andThen m (fun _ => k))
  (at level 61, right associativity) : io_scope.
Local Open Scope io_scope.

Definition notices {A} (m : IO A) : list notice := fst m.
Definition ending_of {A} (m : IO A) : ending A := snd m.

Definition is_error (n : notice) : bool :=
  match n with
  | Error _ => true
  | _ => false
  end.

(** [a || b] and [v?.k] *)
Definition js_or (a b : jsval) : jsval := if truthy a then a else b.

Definition lookup (props : list (string * jsval)) (k : string) : jsval :=
  match assoc k props with
  | Some x => x
  | None => JUndefined
  end.

Definition optional (v : jsval) (k : string) : jsval :=
  match v with
  | JObj props => lookup props k
  | _ => JUndefined
  end.

(** [{...a, ...b}]: the own enumerable properties of [a], then those
    of [b], a later value replacing an earlier one where it stands. *)
Definition spread (a b : list (string * jsval)) : list (string * jsval) :=
  fold_left (fun o kv => JsMap.set (fst kv) (snd kv) o) (a ++ b) [].

(* ================================================================= *)
(** ** [convertAppName], [regexSemver] *)

(** [appName.replace(/\./g, '--')] *)
Fixpoint convertAppName (appName : string) : string :=
  match appName with
  | EmptyString => EmptyString
  | String c rest =>
      if Ascii.eqb c "." then String "-" (String "-" (convertAppName rest))
      else String c (convertAppName rest)
  end.

(** [\d], [[1-9]], [[a-zA-Z-]], [[0-9a-zA-Z-]] *)
Definition digit (c : ascii) : bool := in_range "0" "9" c.
Definition nonzero_digit (c : ascii) : bool := in_range "1" "9" c.
Definition letter_or_hyphen (c : ascii) : bool :=
  in_range "a" "z" c || in_range "A" "Z" c || Ascii.eqb c "-".
Definition identifier_char (c : ascii) : bool :=
  in_range "0" "9" c || in_range "a" "z" c || in_range "A" "Z" c || Ascii.eqb c "-".

(** [(...)?] *)
Definition Opt (r : RegExp.t) : RegExp.t := RegExp.Alt RegExp.Eps r.

(** [0|[1-9]\d*] *)
Definition numericIdentifier : RegExp.t :=
  RegExp.Alt (RegExp.Chr "0")
    (RegExp.Cat (RegExp.Class nonzero_digit) (RegExp.Star (RegExp.Class digit))).

(** [0|[1-9]\d*|\d*[a-zA-Z-][0-9a-zA-Z-]*] *)
Definition prereleaseIdentifier : RegExp.t :=
  RegExp.Alt (RegExp.Chr "0")
    (RegExp.Alt
       (RegExp.Cat (RegExp.Class nonzero_digit) (RegExp.Star (RegExp.Class digit)))
       (RegExp.Cat (RegExp.Star (RegExp.Class digit))
          (RegExp.Cat (RegExp.Class letter_or_hyphen)
             (RegExp.Star (RegExp.Class identifier_char))))).

(** [x(?:\.x)*] *)
Definition dotted (x : RegExp.t) : RegExp.t :=
  RegExp.Cat x (RegExp.Star (RegExp.Cat (RegExp.Chr ".") x)).

(** The exported [regexSemver], between [^] and [$]. *)
Definition regexSemver : RegExp.t :=
  RegExp.Cat numericIdentifier
    (RegExp.Cat (RegExp.Chr ".")
       (RegExp.Cat numericIdentifier
          (RegExp.Cat (RegExp.Chr ".")
             (RegExp.Cat numericIdentifier
                (RegExp.Cat
                   (Opt (RegExp.Cat (RegExp.Chr "-") (dotted prereleaseIdentifier)))
                   (Opt (RegExp.Cat (RegExp.Chr "+")
                           (dotted (RegExp.Plus (RegExp.Class identifier_char)))))))))).

(** [regexSemver.test(version)]: anchored at both ends, the pattern has
    to match the whole of [version]. *)
Definition regexSemver_test (version : string) : bool :=
  RegExp.matches regexSemver (list_ascii_of_string version).

(* ================================================================= *)
(** ** [getFiles], [findMainFile] *)

(** An entry of a directory as [readdirSync(dir, { withFileTypes: true })]
    lists it: a directory ([isDirectory()] holds) with what reading it
    gives, [None] when [readdirSync] throws on it, or anything else. *)
Inductive dirent : Type :=
| File (name : string)
| Directory (name : string) (content : option (list dirent)).

(** [s.startsWith(searchString)] *)
Fixpoint startsWith (s searchString : string) {struct searchString} : bool :=
  match searchString with
  | EmptyString => true
  | String c p =>
      match s with
      | EmptyString => false
      | String d s' => Ascii.eqb c d && startsWith s' p
      end
  end.

(** [resolve(dir, name)] of [path], for a normalized absolute [dir] and
    the name of one of its entries. *)
Definition resolve (dir name : string) : string :=
  if dir =? "/" then "/" ++ name else dir ++ "/" ++ name.

(** Lines 200-203: the directories [getFiles] walks into. *)
Definition walksInto (name : string) : bool :=
  negb (startsWith name ".")
  && negb (startsWith name "node_modules")
  && negb (startsWith name "dist").

(** What a generator does until it is exhausted: the values it yields,
    and the directory whose reading threw, if one did. *)
Definition generated : Type := (list string * option string)%type.

Section ForOf.
Variable A : Type.
Variable body : A -> generated.

(** [for (const x of xs) { yield* body(x) }] *)
Fixpoint yieldEach (xs : list A) : generated :=
  match xs with
  | [] => ([], None)
  | x :: tl =>
      match body x with
      | (ys, Some failed) => (ys, Some failed)
      | (ys, None) => let (ys', e) := yieldEach tl in (ys ++ ys', e)
      end
  end.
End ForOf.

(** The body of the loop of [getFiles(dir)] for one entry. *)
Fixpoint getFiles_dirent (dir : string) (d : dirent) : generated :=
  match d with
  | File name => ([resolve dir name], None)
  | Directory name content =>
      let res := resolve dir name in
      if walksInto name then
        match content with
        | Some dirents => yieldEach (getFiles_dirent res) dirents
        | None => ([], Some res)
        end
      else ([res], None)
  end.

(** [getFiles(dir)], for a directory [dir] whose reading gives [content]. *)
Definition getFiles (dir : string) (content : option (list dirent)) : generated :=
  match content with
  | Some dirents => yieldEach (getFiles_dirent dir) dirents
  | None => ([], Some dir)
  end.

(** [/(main|index)\.(ts|tsx|js|jsx)$/] *)
Definition mainRegex : RegExp.t :=
  RegExp.Cat (RegExp.Alt (RegExp.Lit "main") (RegExp.Lit "index"))
    (RegExp.Cat (RegExp.Chr ".")
       (RegExp.Alt (RegExp.Lit "ts")
          (RegExp.Alt (RegExp.Lit "tsx")
             (RegExp.Alt (RegExp.Lit "js") (RegExp.Lit "jsx"))))).

Definition mainRegex_test (f : string) : bool := RegExp.test_at_end mainRegex f.

(** [s.split('/').length] *)
Fixpoint split_length (s : string) : nat :=
  match s with
  | EmptyString => 1
  | String c rest => if Ascii.eqb c "/" then S (split_length rest) else split_length rest
  end.

(** Lines 218-219: the test of the loop of [findMainFile]. *)
Definition isMainFile (pwdL : nat) (f : string) : bool :=
  let folders := (Z.of_nat (split_length f) - Z.of_nat pwdL)%Z in
  (folders <=? 2)%Z && mainRegex_test f.

(** [findMainFile()], with [pwd] for [process.cwd()].  The loop stops
    at the first file that passes the test, so what the generator would
    do after it, a failing read included, never happens. *)
Definition findMainFile (pwd : string) (content : option (list dirent)) : IO string :=
  let pwdL := split_length pwd in
  let (yielded, failed) := getFiles pwd content in
  match find (isMainFile pwdL) yielded with
  | Some f => say (Info ("Found main file here " ++ f)) ;; pure f
  | None =>
      match failed with
      | Some dir => raise dir
      | None => pure ""
      end
  end.

(* ================================================================= *)
(** ** [findSavedKey] *)

(** The files [findSavedKey] looks at: [homedir()], [existsSync] and
    [readFileSync(path, 'utf8')], [None] when reading throws. *)
Module Fs.
Record t : Type := {
  homedir : string;
  existsSync : string -> bool;
  readFileSync : string -> option string
}.
End Fs.

Section SavedKey.
(** [String.prototype.trim] *)
Variable trim : string -> string.

(** [readFileSync(keyPath, 'utf8').trim()] *)
Definition readKey (fs : Fs.t) (keyPath : string) : IO string :=
  match Fs.readFileSync fs keyPath with
  | Some content => pure (trim content)
  | None => raise keyPath
  end.

(** [!key], for [key] a string or [undefined] *)
Definition noKey (key : option string) : bool :=
  match key with
  | Some k => k =? ""
  | None => true
  end.

Definition findSavedKey (fs : Fs.t) (quiet : bool) : IO string :=
  let userHomeDir := Fs.homedir fs in
  let keyPath := (userHomeDir ++ "/.capgo")%string in
  key <-
    (if Fs.existsSync fs keyPath then
       (if negb quiet then say (Info ("Use global apy key " ++ keyPath)) else pure tt) ;;
       k <- readKey fs keyPath ;;
       pure (Some k)
     else pure None) ;;
  let keyPath := ".capgo" in
  key <-
    (if noKey key && Fs.existsSync fs keyPath then
       (if negb quiet then say (Info ("Use local apy key " ++ keyPath)) else pure tt) ;;
       k <- readKey fs keyPath ;;
       pure (Some k)
     else pure key) ;;
  if noKey key then
    say (Error "Cannot find API key in local folder or global, please login first with npx @capacitor/cli login") ;;
    exit
  else pure (match key with Some k => k | None => "" end).
End SavedKey.

(* ================================================================= *)
(** ** [getConfig], [getLocalConfig], [getRemoteConfig], [createSupabaseClient] *)

Definition defaultHost : string := "https://capgo.app".
Definition defaultApiHost : string := "https://api.capgo.app".
Definition defaultHostWeb : string := "https://web.capgo.app".

(** [getConfig()], with [loadConfig] the result of capacitor's
    [loadConfig()], [None] when it throws. *)
Definition getConfig (loadConfig : option jsval) : IO jsval :=
  match loadConfig with
  | Some config => pure config
  | None =>
      say (Error "No capacitor config file found, run `cap init` first") ;;
      exit
  end.

(** [config?.app?.extConfig?.plugins?.CapacitorUpdater?.setting] *)
Definition updaterSetting (config : jsval) (setting : string) : jsval :=
  optional
    (optional (optional (optional (optional config "app") "extConfig") "plugins")
       "CapacitorUpdater")
    setting.

(** The object [getLocalConfig] builds, as its properties in order. *)
Definition getLocalConfig (loadConfig : option jsval) : IO (list (string * jsval)) :=
  catch
    (config <- getConfig loadConfig ;;
     let capConfig :=
       [("host", js_or (updaterSetting config "localHost") (JStr defaultHost));
        ("hostWeb", js_or (updaterSetting config "localWebHost") (JStr defaultHostWeb))] in
     if truthy (updaterSetting config "localSupa")
        && truthy (updaterSetting config "localSupaAnon")
     then
       pure (JsMap.set "supaHost" (updaterSetting config "localSupa")
               (JsMap.set "supaKey" (updaterSetting config "localSupaAnon") capConfig))
     else pure capConfig)
    (pure [("host", JStr defaultHost); ("hostWeb", JStr defaultHostWeb)]).

(** [getRemoteConfig()], with [response] the [data] of the answer to
    the request of [get_config], [None] when the request fails. *)
Definition getRemoteConfig (loadConfig : option jsval) (response : option jsval)
  : IO (list (string * jsval)) :=
  localConfig <- getLocalConfig loadConfig ;;
  match response with
  | Some data => pure (spread (Object_entries data) localConfig)
  | None => say (Console "Local config") ;; pure localConfig
  end.



(* ================================================================= *)
(** ** [checkKey], [verifyUser] *)

(** Lines 107-112: the modes, each followed by a comma and the last one
    preceded by "or". *)
Fixpoint keymodeStr (keymode : list string) : string :=
  match keymode with
  | [] => ""
  | [k] => "or " ++ k
  | k :: rest => k ++ ", " ++ keymodeStr rest
  end.

(** [checkKey], with [access] the answer of [is_allowed_capgkey]. *)
Definition checkKey (access : Response) (keymode : list string) : IO unit :=
  let apiAccess := data access in
  if negb (truthy apiAccess) then
    say (Error "Invalid API key or insufficient permissions.") ;;
    say (Error ("Your key should be: " ++ keymodeStr keymode ++ " mode.")) ;;
    exit
  else pure tt.

Section VerifyUser.
(** [v.toString()] *)
Variable toString : jsval -> string.

(** [verifyUser], with [access] the answer of [is_allowed_capgkey] and
    [user] the answer of [get_user_id]. *)
Definition verifyUser (access user : Response) (keymod : list string) : IO string :=
  checkKey access keymod ;;
  let dataUser := data user in
  let userIdError := error user in
  let userId := toString (js_or dataUser (JStr "")) in
  if (userId =? "") || (match userIdError with Some _ => true | None => false end) then
    say (Error "Cannot auth user with apikey") ;;
    exit
  else pure userId.
End VerifyUser.

(* ================================================================= *)
(** ** [updateOrCreateVersion], [updateOrCreateChannel] *)

(** The statement handed to the store: an update of the rows of a table
    that pass the [eq] filters, or an insert. *)
Inductive statement : Type :=
| UpdateRows (table : string) (row : list (string * jsval))
             (filters : list (string * jsval))
| InsertRow (table : string) (row : list (string * jsval)).

(** What the caller is left with: the object [update] as the call
    leaves it, and the statement returned or the message of the
    rejection. *)
Record Upsert : Type := {
  updateAfter : list (string * jsval);
  result : statement + string
}.

(** [updateOrCreateVersion], with [existing] the answer of
    [exist_app_versions]. *)
Definition updateOrCreateVersion (update : list (string * jsval)) (existing : Response)
  : Upsert :=
  if truthy (data existing) && (match error existing with None => true | Some _ => false end)
  then
    let update := JsMap.set "deleted" (JBool false) update in
    {| updateAfter := update;
       result := inl (UpdateRows "app_versions" update
                        [("app_id", lookup update "app_id");
                         ("name", lookup update "name")]) |}
  else
    {| updateAfter := update; result := inl (InsertRow "app_versions" update) |}.

(** [v !== 1] *)
Definition is_not_one (v : jsval) : bool :=
  match v with
  | JNum q => negb (Qeq_bool q 1)
  | _ => true
  end.

Definition channelFilters (update : list (string * jsval)) : list (string * jsval) :=
  [("app_id", lookup update "app_id");
   ("name", lookup update "name");
   ("created_by", lookup update "created_by")].

(** [updateOrCreateChannel], with [existing] the answer of the [select]
    on the channel, consulted only once the three keys are there. *)
Definition updateOrCreateChannel (update : list (string * jsval)) (existing : Response)
  : list notice * Upsert :=
  if negb (truthy (lookup update "app_id"))
     || negb (truthy (lookup update "name"))
     || negb (truthy (lookup update "created_by"))
  then
    ([Error "missing app_id, name, or created_by"],
     {| updateAfter := update; result := inr "missing app_id, name, or created_by" |})
  else
    let row := data existing in
    if truthy row && (match error existing with None => true | Some _ => false end) then
      if truthy (optional row "enable_progressive_deploy") then
        let warned :=
          if is_not_one (optional row "secondaryVersionPercentage")
          then [Warn "Latest progressive deploy has not finished"] else [] in
        let update := JsMap.set "secondVersion" (lookup update "version") update in
        if negb (truthy (optional row "secondVersion")) then
          ([Info "Progressive deploy is enabled"] ++ warned ++ [Error "missing secondVersion"],
           {| updateAfter := update; result := inr "missing secondVersion" |})
        else
          let update := JsMap.set "version" (optional row "secondVersion") update in
          let update := JsMap.set "secondaryVersionPercentage" (JNum (1 # 10)) update in
          ([Info "Progressive deploy is enabled"] ++ warned
           ++ [Info "Started new progressive upload!"],
           {| updateAfter := update;
              result := inl (UpdateRows "channels" update (channelFilters update)) |})
      else
        ([], {| updateAfter := update;
                result := inl (UpdateRows "channels" update (channelFilters update)) |})
    else
      ([], {| updateAfter := update; result := inl (InsertRow "channels" update) |}).

(* ================================================================= *)
(** ** Readings used in the statements about these functions *)

(** A numeric identifier of a version: ["0"], or digits that do not
    start with a zero. *)
Definition numeric_identifier (s : string) : Prop :=
  s = "0"
  \/ exists c rest,
       s = String c rest /\ nonzero_digit c = true
       /\ forallb digit (list_ascii_of_string rest) = true.

(** A name without a hyphen. *)
Definition no_hyphen (s : string) : Prop :=
  ~ In "-"%char (list_ascii_of_string s).

(** [reached dir d p]: [p] is the path of [d] in [dir] when [d] is a
    file or a directory that is not walked into, or it is reached from
    an entry of [d] when [d] is a directory that is walked into. *)
Inductive reached : string -> dirent -> string -> Prop :=
| reached_file dir name :
    reached dir (File name) (resolve dir name)
| reached_not_walked dir name content :
    walksInto name = false ->
    reached dir (Directory name content) (resolve dir name)
| reached_inside dir name dirents d p :
    walksInto name = true ->
    In d dirents ->
    reached (resolve dir name) d p ->
    reached dir (Directory name (Some dirents)) p.

(** A path that ends in [main] or [index], a dot, and one of ts, tsx,
    js, jsx. *)
Definition main_file_path (path : string) : Prop :=
  exists prefix stem extension : string,
    path = (prefix ++ stem ++ "." ++ extension)%string
    /\ In stem ["main"; "index"]
    /\ In extension ["ts"; "tsx"; "js"; "jsx"].

(* ================================================================= *)
(** ** Inputs used in the examples about these functions *)

Module MoreExamples.

(** A machine with a blank key file in the home directory and a key in
    the project. *)
Definition keyFiles : Fs.t :=
  {| Fs.homedir := "/home/dev";
     Fs.existsSync := fun _ => true;
     Fs.readFileSync := fun path => if path =? ".capgo" then Some "secret" else Some "" |}.

(** A capacitor configuration that names a local store, and one that
    names only its address. *)
Definition updaterConfig (settings : list (string * jsval)) : jsval :=
  JObj [("app",
         JObj [("extConfig",
                JObj [("plugins", JObj [("CapacitorUpdater", JObj settings)])])])].


Definition halfStoreConfig : jsval :=
  updaterConfig [("localSupa", JStr "http://localhost:54321")].

(** What the server of [get_config] answers. *)
Definition serverConfig : list (string * jsval) :=
  [("supaHost", JStr "https://store.example"); ("supaKey", JStr "server-key");
   ("host", JStr "https://other.example")].

(** An upload to a channel, and the row of a channel in progressive
    deploy. *)
Definition upload : list (string * jsval) :=
  [("app_id", JStr "com.example.app"); ("name", JStr "production");
   ("created_by", JStr "user-1"); ("version", JNum 7)].

Definition progressiveRow : list (string * jsval) :=
  [("enable_progressive_deploy", JBool true);
   ("secondaryVersionPercentage", JNum 1);
   ("secondVersion", JNum 5)].

Definition stalledRow : list (string * jsval) :=
  [("enable_progressive_deploy", JBool true);
   ("secondaryVersionPercentage", JNum (1 # 2));
   ("secondVersion", JNull)].

End MoreExamples.

Local Close Scope io_scope.
(* ================================================================= *)
(** * Properties *)

Unset Implicit Arguments.

(** ** The monad *)

Lemma bind_returned {A B} (m : M A) (f : A -> M B) l b :
  bind m f = (l, Returned b) ->
  exists l1 a l2, m = (l1, Returned a) /\ f a = (l2, Returned b) /\ l = l1 ++ l2.
Proof.
  destruct m as [l1 [a| |e]]; simpl; try discriminate.
  destruct (f a) as [l2 o] eqn:E. intros H. inversion H; subst.
  exists l1, a, l2. auto.
Qed.

(** ** The map of remote packages *)

Section JsMapFacts.
Variable V : Type.
Implicit Types (m : JsMap.t V) (k : string) (v : V).

Lemma assoc_In k (l : list (string * V)) v : assoc k l = Some v -> In (k, v) l.
Proof.
  induction l as [|[k' v'] tl IH]; simpl; [discriminate|].
  destruct (String.eqb_spec k' k) as [->|Hne]; intros H.
  - inversion H; subst. now left.
  - right. auto.
Qed.


Lemma set_keys k v m k0 :
  In k0 (JsMap.keys (JsMap.set k v m)) <-> k0 = k \/ In k0 (JsMap.keys m).
Proof.
  unfold JsMap.keys. induction m as [|[k' v'] tl IH]; simpl.
  - intuition.
  - destruct (String.eqb_spec k' k) as [->|Hne]; simpl.
    + intuition.
    + rewrite IH. intuition.
Qed.

Lemma set_NoDup k v m : NoDup (JsMap.keys m) -> NoDup (JsMap.keys (JsMap.set k v m)).
Proof.
  unfold JsMap.keys. induction m as [|[k' v'] tl IH]; simpl; intros H.
  - constructor; [intros [] | constructor].
  - inversion H as [|? ? Hnin Htl]; subst.
    destruct (String.eqb_spec k' k) as [->|Hne]; simpl.
    + constructor; assumption.
    + constructor; [|auto].
      intros Hin. apply (set_keys k v tl k') in Hin.
      destruct Hin as [->|Hin]; [now apply Hne | contradiction].
Qed.

Lemma fold_set_keys (es : list (string * V)) m k0 :
  In k0 (JsMap.keys (fold_left (fun m kv => JsMap.set (fst kv) (snd kv) m) es m))
  <-> In k0 (map fst es) \/ In k0 (JsMap.keys m).
Proof.
  revert m. induction es as [|[k v] tl IH]; intros m; simpl.
  - tauto.
  - rewrite IH, set_keys. intuition.
Qed.

Lemma fold_set_NoDup (es : list (string * V)) m :
  NoDup (JsMap.keys m) ->
  NoDup (JsMap.keys (fold_left (fun m kv => JsMap.set (fst kv) (snd kv) m) es m)).
Proof.
  revert m. induction es as [|[k v] tl IH]; intros m H; simpl; [assumption|].
  apply IH, set_NoDup, H.
Qed.

(** The keys of [new Map(entries)] are the first components of
    [entries], each once. *)
Lemma of_entries_keys (es : list (string * V)) k0 :
  In k0 (JsMap.keys (JsMap.of_entries es)) <-> In k0 (map fst es).
Proof. unfold JsMap.of_entries. rewrite fold_set_keys. simpl. tauto. Qed.

Lemma of_entries_NoDup (es : list (string * V)) :
  NoDup (JsMap.keys (JsMap.of_entries es)).
Proof. apply fold_set_NoDup. constructor. Qed.

End JsMapFacts.

Lemma mapPackages_keys packages n :
  In n (JsMap.keys (mapPackages packages)) <-> In n (map Remote.name packages).
Proof.
  unfold mapPackages. rewrite of_entries_keys, map_map. simpl. tauto.
Qed.

Lemma mapPackages_NoDup packages : NoDup (JsMap.keys (mapPackages packages)).
Proof. apply of_entries_NoDup. Qed.

(** ** The reconciled report *)

Section Reconcile.
Variable L : list Local.t.
Variable R : JsMap.t Remote.t.

Lemma localPass_names :
  map Entry.name (localPass L R) = map Local.name (filter is_native L).
Proof.
  unfold localPass. rewrite map_map. apply map_ext.
  intros a. destruct (JsMap.get R (Local.name a)); reflexivity.
Qed.

Lemma find_name_None n :
  find (fun a => Local.name a =? n) L = None <-> ~ In n (map Local.name L).
Proof.
  split.
  - intros H Hin. apply in_map_iff in Hin as [a [<- Ha]].
    generalize (find_none _ _ H a Ha). now rewrite String.eqb_refl.
  - intros H. destruct (find _ L) as [a|] eqn:E; [|reflexivity].
    apply find_some in E as [Ha Hn]. apply String.eqb_eq in Hn.
    exfalso. apply H. rewrite <- Hn. now apply in_map.
Qed.

Lemma removeNotInLocal_In e :
  In e (removeNotInLocal L R) <->
  exists n rp, In (n, rp) (JsMap.entries R) /\ ~ In n (map Local.name L)
               /\ e = RemoteOnly n (Remote.version rp).
Proof.
  unfold removeNotInLocal. rewrite in_map_iff. split.
  - intros [[n rp] [<- H]]. apply filter_In in H as [Hin Hf]. simpl in *.
    exists n, rp. repeat split; [assumption|].
    apply find_name_None. destruct (find _ L); [discriminate | reflexivity].
  - intros [n [rp [Hin [Hn ->]]]]. exists (n, rp). split; [reflexivity|].
    apply filter_In. split; [assumption|]. simpl.
    apply find_name_None in Hn. now rewrite Hn.
Qed.

Lemma removeNotInLocal_names n :
  In n (map Entry.name (removeNotInLocal L R)) <->
  In n (JsMap.keys R) /\ ~ In n (map Local.name L).
Proof.
  rewrite in_map_iff. split.
  - intros [e [<- He]]. apply removeNotInLocal_In in He as [k [rp [Hin [Hn ->]]]].
    simpl. split; [|assumption]. apply (in_map fst) in Hin. exact Hin.
  - intros [Hk Hn]. apply in_map_iff in Hk as [[k rp] [<- Hin]].
    exists (RemoteOnly k (Remote.version rp)). split; [reflexivity|].
    apply removeNotInLocal_In. exists k, rp. auto.
Qed.

Lemma finalDepenencies_names n :
  In n (map Entry.name (finalDepenencies L R)) <->
  In n (map Local.name (filter is_native L))
  \/ (In n (JsMap.keys R) /\ ~ In n (map Local.name L)).
Proof.
  unfold finalDepenencies. rewrite map_app, in_app_iff.
  now rewrite localPass_names, removeNotInLocal_names.
Qed.

Lemma filter_names_incl (f : Local.t -> bool) n :
  In n (map Local.name (filter f L)) -> In n (map Local.name L).
Proof.
  intros H. apply in_map_iff in H as [a [<- Ha]].
  apply filter_In in Ha as [Ha _]. now apply in_map.
Qed.

End Reconcile.

Lemma NoDup_map_filter {A B : Type} (g : A -> B) (f : A -> bool) (l : list A) :
  NoDup (map g l) -> NoDup (map g (filter f l)).
Proof.
  induction l as [|a l IH]; simpl; intros H; [constructor|].
  inversion H as [|? ? Hnin Hl]; subst.
  destruct (f a); simpl; [|auto].
  constructor; [|auto].
  intros Hin. apply Hnin. apply in_map_iff in Hin as [x [Hx Hf]].
  apply filter_In in Hf as [Hf _]. rewrite <- Hx. now apply in_map.
Qed.

(** A dependency without native files has no native namesake when names
    are distinct. *)
Lemma not_native_not_filtered (L : list Local.t) (d : Local.t) :
  NoDup (map Local.name L) -> In d L -> is_native d = false ->
  ~ In (Local.name d) (map Local.name (filter is_native L)).
Proof.
  induction L as [|a L IH]; simpl; intros Hnd Hin Hd; [tauto|].
  inversion Hnd as [|? ? Hnin Hl]; subst.
  destruct Hin as [->|Hin].
  - rewrite Hd. intros H. apply Hnin. eapply filter_names_incl, H.
  - specialize (IH Hl Hin Hd).
    destruct (is_native a) eqn:Ea; simpl; [|exact IH].
    intros [Heq|H]; [|exact (IH H)].
    apply Hnin. rewrite Heq. now apply in_map.
Qed.

(** C1, as amended.  The names of the entries of [finalCompatibility]
    are the names of the native local dependencies together with the
    remote names that no local dependency, native or not, bears; each
    of them is the name of exactly one entry.  [L] is any list of local
    dependencies with distinct names (the keys of one object) and the
    remote map is built from any list of validated packages. *)
Theorem finalDepenencies_name_set (L : list Local.t) (packages : list Remote.t) :
  NoDup (map Local.name L) ->
  (forall n,
      In n (map Entry.name (finalDepenencies L (mapPackages packages))) <->
      In n (map Local.name (filter is_native L))
      \/ (In n (map Remote.name packages) /\ ~ In n (map Local.name L)))
  /\ NoDup (map Entry.name (finalDepenencies L (mapPackages packages))).
Proof.
  intros Hnd. split.
  - intros n. rewrite finalDepenencies_names, mapPackages_keys. tauto.
  - unfold finalDepenencies. rewrite map_app. apply NoDup_app.
    + rewrite localPass_names. now apply NoDup_map_filter.
    + unfold removeNotInLocal. rewrite map_map. simpl.
      apply NoDup_map_filter. apply mapPackages_NoDup.
    + intros n H1 H2. rewrite localPass_names in H1.
      apply removeNotInLocal_names in H2 as [_ H2].
      apply H2. eapply filter_names_incl, H1.
Qed.

Lemma finalDepenencies_name_set_witness :
  (forall n,
      In n (map Entry.name (finalDepenencies Examples.L Examples.R)) <->
      In n ["A"; "B"] \/ (In n ["A"; "D"] /\ ~ In n ["A"; "B"; "C"]))
  /\ NoDup (map Entry.name (finalDepenencies Examples.L Examples.R)).
Proof.
  apply (finalDepenencies_name_set Examples.L
           [Remote.mk "A" "1.0.0"; Remote.mk "D" "3.0.0"]).
  simpl. repeat constructor; simpl; intuition discriminate.
Defined.

(** C1 as stated fails: the remote map names X, which the report omits
    because X is a local dependency without native files. *)
Lemma finalDepenencies_name_set_counterexample :
  getLocalDepenencies Examples.shadowEnv = ([], Returned Examples.shadowL)
  /\ getRemoteDepenencies Examples.shadowStore "app" "production"
     = ([], Returned Examples.shadowR)
  /\ checkCompatibility Examples.shadowEnv Examples.shadowStore "app" "production"
     = ([], Returned {| finalCompatibility := [];
                        localDependencies := Examples.shadowL |})
  /\ In "X" (JsMap.keys Examples.shadowR)
  /\ ~ In "X" (map Entry.name (finalDepenencies Examples.shadowL Examples.shadowR)).
Proof.
  repeat split; try reflexivity; [left; reflexivity | simpl; tauto].
Qed.

(** C2, as amended.  Every native local dependency yields a Matched
    entry with both version strings when the remote map has its name,
    whatever the two strings are, and a LocalOnly entry when it has
    not; every remote entry whose name no local dependency bears,
    native or not, yields a RemoteOnly entry; the report holds nothing
    else; and the example of the specification evaluates to
    Matched(A), LocalOnly(B), RemoteOnly(D). *)
Theorem finalDepenencies_classification (L : list Local.t) (R : JsMap.t Remote.t) :
  (forall local remotePackage,
      In local L -> is_native local = true ->
      JsMap.get R (Local.name local) = Some remotePackage ->
      In (Matched (Local.name local) (Local.version local)
                  (Remote.version remotePackage))
         (finalDepenencies L R))
  /\ (forall local,
        In local L -> is_native local = true ->
        JsMap.get R (Local.name local) = None ->
        In (LocalOnly (Local.name local) (Local.version local))
           (finalDepenencies L R))
  /\ (forall n remotePackage,
        In (n, remotePackage) (JsMap.entries R) ->
        ~ In n (map Local.name L) ->
        In (RemoteOnly n (Remote.version remotePackage)) (finalDepenencies L R))
  /\ (forall e,
        In e (finalDepenencies L R) ->
        (exists local, In local L /\ is_native local = true
           /\ match JsMap.get R (Local.name local) with
              | Some remotePackage =>
                  e = Matched (Local.name local) (Local.version local)
                              (Remote.version remotePackage)
              | None => e = LocalOnly (Local.name local) (Local.version local)
              end)
        \/ (exists n remotePackage,
              In (n, remotePackage) (JsMap.entries R)
              /\ ~ In n (map Local.name L)
              /\ e = RemoteOnly n (Remote.version remotePackage)))
  /\ finalDepenencies Examples.L Examples.R
     = [Matched "A" "1.0.0" "1.0.0"; LocalOnly "B" "2.0.0"; RemoteOnly "D" "3.0.0"].
Proof.
  unfold finalDepenencies. repeat split.
  - intros local rp Hin Hnat Hget. apply in_or_app. left.
    unfold localPass. apply in_map_iff. exists local.
    rewrite Hget. split; [reflexivity|]. apply filter_In. auto.
  - intros local Hin Hnat Hget. apply in_or_app. left.
    unfold localPass. apply in_map_iff. exists local.
    rewrite Hget. split; [reflexivity|]. apply filter_In. auto.
  - intros n rp Hin Hn. apply in_or_app. right.
    apply removeNotInLocal_In. exists n, rp. auto.
  - intros e He. apply in_app_or in He as [He|He].
    + left. unfold localPass in He. apply in_map_iff in He as [local [<- Hl]].
      apply filter_In in Hl as [Hin Hnat]. exists local. repeat split; trivial.
      destruct (JsMap.get R (Local.name local)); reflexivity.
    + right. now apply removeNotInLocal_In.
Qed.

Lemma finalDepenencies_classification_witness :
  In (Matched "A" "1.0.0" "1.0.0") (finalDepenencies Examples.L Examples.R)
  /\ In (LocalOnly "B" "2.0.0") (finalDepenencies Examples.L Examples.R)
  /\ In (RemoteOnly "D" "3.0.0") (finalDepenencies Examples.L Examples.R).
Proof.
  destruct (finalDepenencies_classification Examples.L Examples.R)
    as [HM [HL [HR _]]].
  split; [|split].
  - apply (HM (Local.mk "A" "1.0.0" (Some true)) (Remote.mk "A" "1.0.0"));
      [left; reflexivity | reflexivity | reflexivity].
  - apply (HL (Local.mk "B" "2.0.0" (Some true)));
      [right; left; reflexivity | reflexivity | reflexivity].
  - apply (HR "D" (Remote.mk "D" "3.0.0")); [right; left; reflexivity|].
    simpl. intuition discriminate.
Defined.

(** C2 as stated fails: X is a remote entry whose name is absent from
    the local native set, and the report has no RemoteOnly entry for
    it, since X is a local dependency without native files. *)
Lemma finalDepenencies_classification_counterexample :
  In ("X", Remote.mk "X" "1.0.0") (JsMap.entries Examples.shadowR)
  /\ ~ In "X" (map Local.name (filter is_native Examples.shadowL))
  /\ finalDepenencies Examples.shadowL Examples.shadowR = []
  /\ ~ In (RemoteOnly "X" "1.0.0")
          (finalDepenencies Examples.shadowL Examples.shadowR).
Proof.
  repeat split; simpl; tauto.
Qed.

(** C3.  A remote name that is also the name of a local dependency
    whose native flag is false has no entry at all in the report: the
    native filter keeps it out of the first pass, and the second pass
    drops it because it looks the name up in the whole local list. *)
Theorem shadowed_remote_entry_disappears
    (L : list Local.t) (R : JsMap.t Remote.t) (d : Local.t) (remotePackage : Remote.t) :
  NoDup (map Local.name L) ->
  In d L ->
  Local.native d = Some false ->
  JsMap.get R (Local.name d) = Some remotePackage ->
  ~ In (Local.name d) (map Entry.name (localPass L R))
  /\ ~ In (Local.name d) (map Entry.name (removeNotInLocal L R))
  /\ (forall e, In e (finalDepenencies L R) -> Entry.name e <> Local.name d).
Proof.
  intros Hnd Hin Hnat Hget.
  assert (H1 : ~ In (Local.name d) (map Entry.name (localPass L R))).
  { rewrite localPass_names. apply not_native_not_filtered; trivial.
    unfold is_native. now rewrite Hnat. }
  assert (H2 : ~ In (Local.name d) (map Entry.name (removeNotInLocal L R))).
  { rewrite removeNotInLocal_names. intros [_ H]. apply H. now apply in_map. }
  repeat split; trivial.
  intros e He Heq. unfold finalDepenencies in He.
  apply in_app_or in He as [He|He]; [apply H1 | apply H2];
    rewrite <- Heq; now apply in_map.
Qed.

Lemma shadowed_remote_entry_disappears_witness :
  ~ In "X" (map Entry.name (localPass Examples.shadowL Examples.shadowR))
  /\ ~ In "X" (map Entry.name (removeNotInLocal Examples.shadowL Examples.shadowR))
  /\ (forall e, In e (finalDepenencies Examples.shadowL Examples.shadowR) ->
                Entry.name e <> "X").
Proof.
  apply (shadowed_remote_entry_disappears Examples.shadowL Examples.shadowR
           (Local.mk "X" "1.0.0" (Some false)) (Remote.mk "X" "1.0.0")).
  - simpl. repeat constructor. simpl. tauto.
  - left. reflexivity.
  - reflexivity.
  - reflexivity.
Defined.

(** C5.  A declared dependency whose native flag is false is the name
    of no entry of [finalCompatibility]. *)
Theorem non_native_excluded
    (L : list Local.t) (R : JsMap.t Remote.t) (d : Local.t) :
  NoDup (map Local.name L) ->
  In d L ->
  Local.native d = Some false ->
  ~ In (Local.name d) (map Entry.name (finalDepenencies L R)).
Proof.
  intros Hnd Hin Hnat. rewrite finalDepenencies_names. intros [H|[_ H]].
  - revert H. apply not_native_not_filtered; trivial.
    unfold is_native. now rewrite Hnat.
  - apply H. now apply in_map.
Qed.

Lemma non_native_excluded_witness :
  ~ In "C" (map Entry.name (finalDepenencies Examples.L Examples.R)).
Proof.
  apply (non_native_excluded Examples.L Examples.R (Local.mk "C" "1.0.0" (Some false))).
  - simpl. repeat constructor; simpl; intuition discriminate.
  - right. right. left. reflexivity.
  - reflexivity.
Defined.

(** ** The matcher against the denotation of a pattern *)

Module RegExpFacts.
Import RegExp.

Lemma nullable_Lang r : nullable r = true <-> Lang r [].
Proof.
  induction r as [| |p|r1 IH1 r2 IH2|r1 IH1 r2 IH2|r IH]; simpl.
  - split; [discriminate | tauto].
  - tauto.
  - split; [discriminate | intros [c [H _]]; discriminate].
  - rewrite andb_true_iff, IH1, IH2. split.
    + intros [H1 H2]. exists [], []. auto.
    + intros [s1 [s2 [H [H1 H2]]]]. symmetry in H.
      apply app_eq_nil in H as [-> ->]. auto.
  - rewrite orb_true_iff, IH1, IH2. tauto.
  - split; [|reflexivity]. intros _. exists []. split; [reflexivity | constructor].
Qed.

Lemma Lang_Star_cons r c s :
  Lang (Star r) (c :: s) <->
  exists s1 s2, s = s1 ++ s2 /\ Lang r (c :: s1) /\ Lang (Star r) s2.
Proof.
  simpl. split.
  - intros [ss [Hs Hall]]. induction Hall as [|x ss Hx Hall IH]; simpl in Hs.
    + discriminate.
    + destruct x as [|c' x'].
      * apply IH, Hs.
      * simpl in Hs. inversion Hs; subst. exists x', (List.concat ss).
        repeat split; trivial. exists ss. auto.
  - intros [s1 [s2 [-> [H1 [ss [-> Hall]]]]]]. exists ((c :: s1) :: ss).
    split; [reflexivity | now constructor].
Qed.

Lemma Lang_deriv c r : forall s, Lang (deriv c r) s <-> Lang r (c :: s).
Proof.
  induction r as [| |p|r1 IH1 r2 IH2|r1 IH1 r2 IH2|r IH]; intros s.
  - simpl. tauto.
  - simpl. split; [tauto | discriminate].
  - simpl. destruct (p c) eqn:E; simpl.
    + split.
      * intros ->. exists c. auto.
      * intros [c' [H _]]. now inversion H.
    + split; [tauto|]. intros [c' [H Hp]]. inversion H; subst. congruence.
  - assert (Hcat : Lang (Cat (deriv c r1) r2) s <->
                   exists s1 s2, s = s1 ++ s2 /\ Lang r1 (c :: s1) /\ Lang r2 s2).
    { simpl. split; intros [s1 [s2 [H [H1 H2]]]]; exists s1, s2;
        (repeat split; trivial); now apply IH1. }
    change (Lang (Cat r1 r2) (c :: s)) with
      (exists s1 s2, c :: s = s1 ++ s2 /\ Lang r1 s1 /\ Lang r2 s2).
    simpl deriv. destruct (nullable r1) eqn:En.
    + change (Lang (Alt (Cat (deriv c r1) r2) (deriv c r2)) s) with
        (Lang (Cat (deriv c r1) r2) s \/ Lang (deriv c r2) s).
      rewrite Hcat, IH2. split.
      * intros [[s1 [s2 [-> [H1 H2]]]]|H].
        -- exists (c :: s1), s2. auto.
        -- exists [], (c :: s). repeat split; trivial. now apply nullable_Lang.
      * intros [[|c' s1] [s2 [H [H1 H2]]]]; simpl in H.
        -- right. now rewrite H.
        -- inversion H; subst. left. exists s1, s2. auto.
    + rewrite Hcat. split.
      * intros [s1 [s2 [-> [H1 H2]]]]. exists (c :: s1), s2. auto.
      * intros [[|c' s1] [s2 [H [H1 H2]]]]; simpl in H.
        -- apply nullable_Lang in H1. congruence.
        -- inversion H; subst. exists s1, s2. auto.
  - simpl. rewrite IH1, IH2. tauto.
  - rewrite Lang_Star_cons.
    change (Lang (deriv c (Star r)) s) with
      (exists s1 s2, s = s1 ++ s2 /\ Lang (deriv c r) s1 /\ Lang (Star r) s2).
    split; intros [s1 [s2 [H [H1 H2]]]]; exists s1, s2;
      (repeat split; trivial); now apply IH.
Qed.

(** The matcher decides the denotation. *)
Lemma matches_Lang s : forall r, matches r s = true <-> Lang r s.
Proof.
  induction s as [|c s IH]; intros r; simpl.
  - apply nullable_Lang.
  - rewrite IH. apply Lang_deriv.
Qed.

Lemma tails_suffix (s suf : list ascii) :
  In suf (tails s) <-> exists pre, s = pre ++ suf.
Proof.
  induction s as [|c s IH]; simpl.
  - split.
    + intros [<-|[]]. now exists [].
    + intros [pre H]. symmetry in H. apply app_eq_nil in H as [_ ->]. now left.
  - rewrite IH. split.
    + intros [<-|[pre ->]]; [now exists [] | now exists (c :: pre)].
    + intros [[|c' pre] H]; simpl in H.
      * left. now symmetry.
      * inversion H; subst. right. now exists pre.
Qed.

(** [/r$/.test(s)] holds when some suffix of [s] is in the language
    of [r]. *)
Lemma test_at_end_spec r (s : string) :
  test_at_end r s = true <->
  exists pre suf, list_ascii_of_string s = pre ++ suf /\ Lang r suf.
Proof.
  unfold test_at_end. rewrite existsb_exists. split.
  - intros [suf [Hin Hm]]. apply tails_suffix in Hin as [pre H].
    exists pre, suf. split; [assumption | now apply matches_Lang].
  - intros [pre [suf [H Hl]]]. exists suf. split.
    + apply tails_suffix. now exists pre.
    + now apply matches_Lang.
Qed.

Lemma Lang_Lit w s : Lang (Lit w) s <-> s = list_ascii_of_string w.
Proof.
  revert s. induction w as [|c w IH]; intros s; simpl.
  - tauto.
  - split.
    + intros [s1 [s2 [-> [[c' [-> Hc]] H2]]]]. apply Ascii.eqb_eq in Hc.
      apply IH in H2. subst. reflexivity.
    + intros ->. exists [c], (list_ascii_of_string w). repeat split.
      * exists c. split; [reflexivity | apply Ascii.eqb_refl].
      * now apply IH.
Qed.

Lemma Lang_Star_Class p s :
  Lang (Star (Class p)) s <-> forallb p s = true.
Proof.
  split.
  - intros [ss [-> Hall]]. induction Hall as [|x ss [c [-> Hc]] Hall IH]; simpl.
    + reflexivity.
    + now rewrite Hc.
  - induction s as [|c s IH]; simpl; intros H.
    + exists []. split; [reflexivity | constructor].
    + apply andb_true_iff in H as [Hc Hs]. destruct (IH Hs) as [ss [-> Hall]].
      exists ([c] :: ss). split; [reflexivity|]. constructor; [|assumption].
      exists c. auto.
Qed.

(** [[...]+]: one or more characters of the class. *)
Lemma Lang_Plus_Class p s :
  Lang (Plus (Class p)) s <-> s <> [] /\ forallb p s = true.
Proof.
  unfold Plus.
  change (Lang (Cat (Class p) (Star (Class p))) s) with
    (exists s1 s2, s = s1 ++ s2 /\ Lang (Class p) s1 /\ Lang (Star (Class p)) s2).
  split.
  - intros [s1 [s2 [-> [[c [-> Hc]] H2]]]]. apply Lang_Star_Class in H2.
    simpl. rewrite Hc, H2. split; [discriminate | reflexivity].
  - intros [Hne H]. destruct s as [|c s]; [congruence|]. simpl in H.
    apply andb_true_iff in H as [Hc Hs]. exists [c], s. repeat split.
    + exists c. auto.
    + now apply Lang_Star_Class.
Qed.

End RegExpFacts.

(** ** What [nativeFileRegex] accepts *)

Lemma list_ascii_of_string_app (a b : string) :
  list_ascii_of_string (a ++ b) = list_ascii_of_string a ++ list_ascii_of_string b.
Proof. induction a as [|c a IH]; simpl; [reflexivity | now rewrite IH]. Qed.

Lemma string_of_list_ascii_app (a b : list ascii) :
  string_of_list_ascii (a ++ b) = (string_of_list_ascii a ++ string_of_list_ascii b)%string.
Proof. induction a as [|c a IH]; simpl; [reflexivity | now rewrite IH]. Qed.

Lemma Lang_nativeFileRegex (suf : list ascii) :
  RegExp.Lang nativeFileRegex suf <->
  exists (id : list ascii) (ext : string),
    suf = id ++ "."%char :: list_ascii_of_string ext
    /\ id <> [] /\ forallb alnum id = true /\ In ext native_extensions.
Proof.
  unfold nativeFileRegex.
  change (RegExp.Lang (RegExp.Cat ?a ?b) suf) with
    (exists s1 s2, suf = s1 ++ s2 /\ RegExp.Lang a s1 /\ RegExp.Lang b s2).
  split.
  - intros [id [s2 [-> [Hid [dot [ext [-> [[c [-> Hc]] Hext]]]]]]]].
    apply Ascii.eqb_eq in Hc. subst c.
    apply RegExpFacts.Lang_Plus_Class in Hid as [Hne Hal].
    assert (He : exists e, ext = list_ascii_of_string e /\ In e native_extensions).
    { destruct Hext as [H|[H|[H|H]]]; apply RegExpFacts.Lang_Lit in H;
        [exists "java" | exists "swift" | exists "kt" | exists "scala"];
        (split; [exact H | simpl; tauto]). }
    destruct He as [e [-> He]]. exists id, e. auto.
  - intros [id [ext [-> [Hne [Hal Hext]]]]].
    exists id, ("."%char :: list_ascii_of_string ext). repeat split.
    + apply RegExpFacts.Lang_Plus_Class. auto.
    + exists ["."%char], (list_ascii_of_string ext). repeat split.
      * exists "."%char. auto.
      * destruct Hext as [<-|[<-|[<-|[<-|[]]]]].
        -- left. now apply RegExpFacts.Lang_Lit.
        -- right. left. now apply RegExpFacts.Lang_Lit.
        -- right. right. left. now apply RegExpFacts.Lang_Lit.
        -- right. right. right. now apply RegExpFacts.Lang_Lit.
Qed.

(** The pattern accepts the paths that [native_source_path] describes. *)
Lemma nativeFileRegex_test_spec (path : string) :
  nativeFileRegex_test path = true <-> native_source_path path.
Proof.
  unfold nativeFileRegex_test, native_source_path.
  rewrite RegExpFacts.test_at_end_spec. split.
  - intros [pre [suf [Hp Hl]]].
    apply Lang_nativeFileRegex in Hl as [id [ext [-> [Hne [Hal Hext]]]]].
    exists (string_of_list_ascii pre), (string_of_list_ascii id), ext.
    repeat split; trivial.
    + rewrite <- (string_of_list_ascii_of_string path), Hp.
      rewrite !string_of_list_ascii_app. simpl.
      now rewrite string_of_list_ascii_of_string.
    + intros H. apply Hne. destruct id; [reflexivity | discriminate].
    + now rewrite list_ascii_of_string_of_list_ascii.
  - intros [pre [id [ext [-> [Hne [Hal Hext]]]]]].
    exists (list_ascii_of_string pre),
           (list_ascii_of_string id ++ "."%char :: list_ascii_of_string ext).
    split.
    + now rewrite !list_ascii_of_string_app.
    + apply Lang_nativeFileRegex. exists (list_ascii_of_string id), ext.
      repeat split; trivial. intros H. apply Hne.
      rewrite <- (string_of_list_ascii_of_string id), H. reflexivity.
Qed.

(** A matching path is not the empty string, so the truthiness test of
    line 452 adds nothing to the search. *)
Lemma hasNativeFiles_existsb (files : list string) :
  hasNativeFiles files = existsb nativeFileRegex_test files.
Proof.
  unfold hasNativeFiles. induction files as [|f files IH]; simpl; [reflexivity|].
  destruct (nativeFileRegex_test f) eqn:E; simpl; [|exact IH].
  destruct f; [discriminate E | reflexivity].
Qed.

Lemma hasNativeFiles_spec (files : list string) :
  hasNativeFiles files = true <-> Exists native_source_path files.
Proof.
  rewrite hasNativeFiles_existsb, existsb_exists, Exists_exists.
  split; intros [f [Hin Hf]]; exists f; (split; [assumption|]);
    now apply nativeFileRegex_test_spec.
Qed.

(** ** [getLocalDepenencies]: the manifest checks *)

Lemma typeof_string v : typeof v = TString <-> exists s, v = JStr s.
Proof.
  split; [|intros [s ->]; reflexivity].
  destruct v; simpl; try discriminate. intros _. now eexists.
Qed.

Lemma jstype_eqb_eq a b : jstype_eqb a b = true <-> a = b.
Proof. destruct a, b; simpl; split; congruence. Qed.

Lemma jstype_eq_dec (a b : jstype) : {a = b} + {a <> b}.
Proof. decide equality. Defined.

Lemma checkValues_strings entries :
  Forall (fun kv => typeof (snd kv) = TString) entries ->
  checkValues entries = ret tt.
Proof.
  induction 1 as [|[key value] tl Hv _ IH]; simpl; [reflexivity|].
  simpl in Hv. rewrite Hv. simpl. rewrite IH. reflexivity.
Qed.

Lemma checkValues_invalid entries :
  Exists (fun kv => typeof (snd kv) <> TString) entries ->
  exists key value,
    In (key, value) entries /\ typeof value <> TString
    /\ checkValues entries = ([DependencyValueInvalid key], Exited).
Proof.
  induction entries as [|[key value] tl IH]; intros H; [inversion H|].
  simpl. destruct (jstype_eqb (typeof value) TString) eqn:E.
  - apply jstype_eqb_eq in E.
    inversion H as [? ? Hhd|? ? Htl]; subst; [simpl in Hhd; congruence|].
    destruct (IH Htl) as [k [v [Hin [Hv Hc]]]].
    exists k, v. repeat split; [now right | assumption |].
    simpl. rewrite Hc. reflexivity.
  - exists key, value. split; [now left | split; [|reflexivity]].
    intros Heq. rewrite Heq in E. discriminate.
Qed.

Lemma checkValues_outcome entries l o :
  checkValues entries = (l, o) ->
  (o = Returned tt /\ l = [] /\ Forall (fun kv => typeof (snd kv) = TString) entries)
  \/ (o = Exited /\ exists key, l = [DependencyValueInvalid key]).
Proof.
  destruct (Forall_Exists_dec (fun kv : string * jsval => typeof (snd kv) = TString)
              (fun kv => jstype_eq_dec (typeof (snd kv)) TString) entries)
    as [Hall|Hex].
  - rewrite (checkValues_strings _ Hall). intros H; inversion H; subst. left. auto.
  - destruct (checkValues_invalid _ Hex) as [k [v [_ [_ Hc]]]]. rewrite Hc.
    intros H; inversion H; subst. right. split; [reflexivity | now exists k].
Qed.

Section ManifestLadder.
Variable env : Env.

(** First rung: no [package.json]. *)
Lemma manifest_missing :
  existsSync env "./package.json" = false ->
  readManifest env = ([ManifestMissing], Exited).
Proof. intros H. unfold readManifest. rewrite H. reflexivity. Qed.

(** Second rung: the content does not parse. *)
Lemma manifest_malformed :
  existsSync env "./package.json" = true ->
  packageJson env = None ->
  readManifest env = ([ManifestMalformed], Exited).
Proof. intros H1 H2. unfold readManifest. rewrite H1, H2. reflexivity. Qed.

(** The rungs below are reached with a parsed manifest. *)
Variable manifest : jsval.
Hypothesis Hexists : existsSync env "./package.json" = true.
Hypothesis Hparsed : packageJson env = Some manifest.

(** [null] cannot be destructured. *)
Lemma manifest_null :
  manifest = JNull -> readManifest env = ([], Threw TypeError).
Proof. intros ->. unfold readManifest. rewrite Hexists, Hparsed. reflexivity. Qed.

Variable dependencies : jsval.
Hypothesis Hdeps : get_prop manifest "dependencies" = ret dependencies.

(** Third rung: no [dependencies]. *)
Lemma dependencies_section_missing :
  truthy dependencies = false ->
  readManifest env = ([DependenciesSectionMissing], Exited).
Proof.
  intros H. unfold readManifest. rewrite Hexists, Hparsed. simpl.
  rewrite Hdeps. simpl. rewrite H. reflexivity.
Qed.

(** Fourth rung: a declared version that is not a string. *)
Lemma dependency_value_invalid :
  truthy dependencies = true ->
  Exists (fun kv => typeof (snd kv) <> TString) (Object_entries dependencies) ->
  exists key value,
    In (key, value) (Object_entries dependencies) /\ typeof value <> TString
    /\ readManifest env = ([DependencyValueInvalid key], Exited).
Proof.
  intros Ht Hex. destruct (checkValues_invalid _ Hex) as [k [v [Hin [Hv Hc]]]].
  exists k, v. repeat split; trivial.
  unfold readManifest. rewrite Hexists, Hparsed. simpl.
  rewrite Hdeps. simpl. rewrite Ht. simpl. rewrite Hc. reflexivity.
Qed.

(** Fifth rung: no [node_modules]. *)
Lemma installed_packages_missing :
  truthy dependencies = true ->
  Forall (fun kv => typeof (snd kv) = TString) (Object_entries dependencies) ->
  existsSync env "./node_modules/" = false ->
  readManifest env = ([InstalledPackagesMissing], Exited).
Proof.
  intros Ht Hall Hn. unfold readManifest. rewrite Hexists, Hparsed. simpl.
  rewrite Hdeps. simpl. rewrite Ht. simpl.
  rewrite (checkValues_strings _ Hall). simpl. rewrite Hn. reflexivity.
Qed.

(** Past the ladder: nothing is reported and the declared dependencies
    go on to the scan. *)
Lemma manifest_accepted :
  truthy dependencies = true ->
  Forall (fun kv => typeof (snd kv) = TString) (Object_entries dependencies) ->
  existsSync env "./node_modules/" = true ->
  readManifest env = ([], Returned dependencies).
Proof.
  intros Ht Hall Hn. unfold readManifest. rewrite Hexists, Hparsed. simpl.
  rewrite Hdeps. simpl. rewrite Ht. simpl.
  rewrite (checkValues_strings _ Hall). simpl. rewrite Hn. reflexivity.
Qed.

End ManifestLadder.

(** What a returning [readManifest] has checked. *)
Lemma readManifest_returned env l dependencies :
  readManifest env = (l, Returned dependencies) ->
  l = []
  /\ existsSync env "./package.json" = true
  /\ (exists manifest, packageJson env = Some manifest
        /\ get_prop manifest "dependencies" = ret dependencies)
  /\ truthy dependencies = true
  /\ Forall (fun kv => typeof (snd kv) = TString) (Object_entries dependencies)
  /\ existsSync env "./node_modules/" = true.
Proof.
  unfold readManifest.
  destruct (existsSync env "./package.json") eqn:E1; simpl; [|discriminate].
  destruct (packageJson env) as [manifest|] eqn:E2; simpl; [|discriminate].
  destruct (get_prop manifest "dependencies") as [l1 [deps| |e]] eqn:E3;
    simpl; try discriminate.
  assert (Hl1 : l1 = []).
  { destruct manifest; simpl in E3; inversion E3; reflexivity. }
  subst l1.
  destruct (truthy deps) eqn:E4; simpl; [|discriminate].
  destruct (checkValues (Object_entries deps)) as [l2 o2] eqn:E5.
  destruct (checkValues_outcome _ _ _ E5) as [[-> [-> Hall]]|[-> [k ->]]];
    simpl; [|discriminate].
  destruct (existsSync env "./node_modules/") eqn:E6; simpl; [|discriminate].
  intros H. inversion H; subst.
  repeat split; trivial. exists manifest. auto.
Qed.

(** ** [getLocalDepenencies]: the scan *)

Lemma bind_exited {A B} (m : M A) (f : A -> M B) l :
  m = (l, Exited) -> bind m f = (l, Exited).
Proof. intros ->. reflexivity. Qed.

Lemma bind_accepted {A B} (m : M A) (f : A -> M B) a :
  m = ([], Returned a) -> bind m f = f a.
Proof. intros ->. simpl. now destruct (f a). Qed.

Lemma earliest_In env keys k : earliest env keys = Some k -> In k keys.
Proof.
  revert k. induction keys as [|key tl IH]; simpl; intros k; [discriminate|].
  destruct (earliest env tl) as [key'|].
  - destruct (_ <=? _)%nat; intros H; inversion H; subst; [now left|].
    right. now apply IH.
  - intros H; inversion H. now left.
Qed.

Lemma earliest_None env keys : earliest env keys = None <-> keys = [].
Proof.
  destruct keys as [|key tl]; simpl; [tauto|].
  split; [|discriminate].
  destruct (earliest env tl); [destruct (_ <=? _)%nat|]; discriminate.
Qed.

(** The rejected scans are those of the installed dependencies whose
    tree cannot be read. *)
Lemma rights_scanOne env entries k :
  In k (rights (map (scanOne env) entries)) <->
  exists v, In (k, v) entries
            /\ existsSync env (dependencyFolder k) = true
            /\ promiseFiles env (dependencyFolder k) = None.
Proof.
  induction entries as [|[key value] tl IH]; simpl.
  - split; [tauto | intros [v [[] _]]].
  - destruct (existsSync env (dependencyFolder key)) eqn:E1; simpl;
      [destruct (promiseFiles env (dependencyFolder key)) eqn:E2; simpl|];
      rewrite ?IH; split.
    + intros [v [Hin H]]. exists v. tauto.
    + intros [v [[Heq|Hin] [H1 H2]]]; [inversion Heq; subst; congruence|].
      exists v. tauto.
    + intros [<-|[v [Hin H]]]; [exists value; auto | exists v; tauto].
    + intros [v [[Heq|Hin] [H1 H2]]]; [inversion Heq; now left|].
      right. exists v. tauto.
    + intros [v [Hin H]]. exists v. tauto.
    + intros [v [[Heq|Hin] [H1 H2]]]; [inversion Heq; subst; congruence|].
      exists v. tauto.
Qed.

(** The two ways the scan can end. *)
Lemma scanDependencies_rejected env dependencies key :
  earliest env (rights (map (scanOne env) (Object_entries dependencies))) = Some key ->
  scanDependencies env dependencies
  = (missingFolderMessages env (Object_entries dependencies) ++ [ScanFailed key], Exited).
Proof. intros H. unfold scanDependencies. rewrite H. reflexivity. Qed.

Lemma scanDependencies_settled env dependencies :
  rights (map (scanOne env) (Object_entries dependencies)) = [] ->
  scanDependencies env dependencies
  = (missingFolderMessages env (Object_entries dependencies),
     if existsb (folderMissing env) (Object_entries dependencies)
        || existsb (fun a => match Local.native a with None => true | Some _ => false end)
                   (lefts (map (scanOne env) (Object_entries dependencies)))
     then Exited
     else Returned (lefts (map (scanOne env) (Object_entries dependencies)))).
Proof.
  intros H. unfold scanDependencies. rewrite H. simpl.
  destruct (_ || _); simpl; now rewrite app_nil_r.
Qed.

Lemma scanDependencies_log env dependencies :
  exists l, log_of (scanDependencies env dependencies)
            = missingFolderMessages env (Object_entries dependencies) ++ l.
Proof.
  destruct (earliest env (rights (map (scanOne env) (Object_entries dependencies))))
    as [key|] eqn:E.
  - rewrite (scanDependencies_rejected _ _ _ E). now eexists.
  - apply earliest_None in E. rewrite (scanDependencies_settled _ _ E).
    exists []. simpl. now rewrite app_nil_r.
Qed.

Lemma missingFolderMessages_In env entries key :
  In (DependencyFolderMissing key) (missingFolderMessages env entries) <->
  exists value, In (key, value) entries /\ existsSync env (dependencyFolder key) = false.
Proof.
  unfold missingFolderMessages. rewrite in_map_iff. split.
  - intros [[k v] [Heq Hin]]. inversion Heq; subst. apply filter_In in Hin as [Hin Hf].
    exists v. split; [assumption|]. unfold folderMissing in Hf. simpl in *.
    now apply negb_true_iff in Hf.
  - intros [v [Hin Hf]]. exists (key, v). split; [reflexivity|].
    apply filter_In. split; [assumption|]. unfold folderMissing. simpl.
    now rewrite Hf.
Qed.

(** A missing folder never lets the scan return. *)
Lemma scanDependencies_missing env dependencies key value :
  In (key, value) (Object_entries dependencies) ->
  existsSync env (dependencyFolder key) = false ->
  fails_with (scanDependencies env dependencies) (DependencyFolderMissing key).
Proof.
  intros Hin Hf. split.
  - destruct (earliest env (rights (map (scanOne env) (Object_entries dependencies))))
      as [k|] eqn:E.
    + now rewrite (scanDependencies_rejected _ _ _ E).
    + apply earliest_None in E. rewrite (scanDependencies_settled _ _ E).
      assert (H : existsb (folderMissing env) (Object_entries dependencies) = true).
      { apply existsb_exists. exists (key, value). split; [assumption|].
        unfold folderMissing. simpl. now rewrite Hf. }
      now rewrite H.
  - destruct (scanDependencies_log env dependencies) as [l ->].
    apply in_or_app. left. apply missingFolderMessages_In. now exists value.
Qed.

(** A rejected scan never lets the scan return either; the failure
    reported is that of the rejected scan that settled first. *)
Lemma scanDependencies_scan_failed env dependencies key value :
  In (key, value) (Object_entries dependencies) ->
  existsSync env (dependencyFolder key) = true ->
  promiseFiles env (dependencyFolder key) = None ->
  exists k v,
    In (k, v) (Object_entries dependencies)
    /\ existsSync env (dependencyFolder k) = true
    /\ promiseFiles env (dependencyFolder k) = None
    /\ fails_with (scanDependencies env dependencies) (ScanFailed k).
Proof.
  intros Hin He Hp.
  assert (Hr : In key (rights (map (scanOne env) (Object_entries dependencies)))).
  { apply rights_scanOne. now exists value. }
  destruct (earliest env (rights (map (scanOne env) (Object_entries dependencies))))
    as [k|] eqn:E.
  - pose proof (earliest_In _ _ _ E) as Hk.
    apply rights_scanOne in Hk as [v [Hv [H1 H2]]].
    exists k, v. repeat split; trivial.
    + now rewrite (scanDependencies_rejected _ _ _ E).
    + rewrite (scanDependencies_rejected _ _ _ E). simpl.
      apply in_or_app. right. now left.
  - apply earliest_None in E. rewrite E in Hr. destruct Hr.
Qed.

Lemma existsb_false_filter {A : Type} (f : A -> bool) (l : list A) :
  existsb f l = false -> filter f l = [].
Proof.
  induction l as [|a l IH]; simpl; [reflexivity|].
  destruct (f a); simpl; [discriminate | exact IH].
Qed.

(** When every folder exists and no scan is rejected, the records of
    [dependenciesObject] follow the declared entries one by one. *)
Lemma settled_records env entries :
  existsb (folderMissing env) entries = false ->
  rights (map (scanOne env) entries) = [] ->
  Forall2 (fun kv d =>
             exists files,
               promiseFiles env (dependencyFolder (fst kv)) = Some files
               /\ d = Local.mk (fst kv) (as_string (snd kv))
                               (Some (hasNativeFiles files)))
          entries (lefts (map (scanOne env) entries)).
Proof.
  induction entries as [|[key value] tl IH]; simpl; intros Hm Hr; [constructor|].
  apply orb_false_iff in Hm as [Hk Hm]. unfold folderMissing in Hk. simpl in Hk.
  rewrite Hk in *.
  destruct (promiseFiles env (dependencyFolder key)) as [fs|] eqn:E; simpl in *;
    [|discriminate].
  constructor; [|auto]. exists fs. auto.
Qed.

Lemma scanDependencies_returned env dependencies l L :
  scanDependencies env dependencies = (l, Returned L) ->
  l = []
  /\ Forall2 (fun kv d =>
                exists files,
                  promiseFiles env (dependencyFolder (fst kv)) = Some files
                  /\ d = Local.mk (fst kv) (as_string (snd kv))
                                  (Some (hasNativeFiles files)))
             (Object_entries dependencies) L.
Proof.
  destruct (earliest env (rights (map (scanOne env) (Object_entries dependencies))))
    as [k|] eqn:E.
  - rewrite (scanDependencies_rejected _ _ _ E). discriminate.
  - apply earliest_None in E. rewrite (scanDependencies_settled _ _ E).
    destruct (existsb (folderMissing env) (Object_entries dependencies)) eqn:Em;
      simpl; [discriminate|].
    destruct (existsb _ (lefts _)); [discriminate|].
    intros H. inversion H; subst. split.
    + unfold missingFolderMessages. now rewrite (existsb_false_filter _ _ Em).
    + now apply settled_records.
Qed.



Lemma getLocalDepenencies_returned env l L :
  getLocalDepenencies env = (l, Returned L) ->
  exists dependencies,
    readManifest env = ([], Returned dependencies)
    /\ scanDependencies env dependencies = ([], Returned L).
Proof.
  unfold getLocalDepenencies. intros H.
  apply bind_returned in H as [l1 [deps [l2 [H1 [H2 _]]]]].
  destruct (readManifest_returned _ _ _ H1) as [-> _].
  destruct (scanDependencies_returned _ _ _ _ H2) as [-> _].
  now exists deps.
Qed.

Lemma getLocalDepenencies_scan env dependencies :
  readManifest env = ([], Returned dependencies) ->
  getLocalDepenencies env = scanDependencies env dependencies.
Proof. intros H. unfold getLocalDepenencies. now apply bind_accepted. Qed.

Lemma checkCompatibility_local_exit env supabase appId channel l :
  getLocalDepenencies env = (l, Exited) ->
  checkCompatibility env supabase appId channel = (l, Exited).
Proof. intros H. unfold checkCompatibility. now apply bind_exited. Qed.

Lemma fails_with_exited {A} (m : M A) e :
  fails_with m e -> exists l, m = (l, Exited) /\ In e l.
Proof. destruct m as [l o]. intros [Ho Hl]. simpl in *. subst. now exists l. Qed.

(** C6.  In the list that [getLocalDepenencies] returns, a dependency
    is flagged native exactly when one of the paths enumerated under
    its installed directory ends in alphanumeric characters, a dot and
    one of java, swift, kt, scala; it is flagged non-native exactly
    when no path does. *)
Theorem native_classification (env : Env) (l : list message) (L : list Local.t) :
  getLocalDepenencies env = (l, Returned L) ->
  forall d, In d L ->
    exists files,
      promiseFiles env (dependencyFolder (Local.name d)) = Some files
      /\ (Local.native d = Some true <-> Exists native_source_path files)
      /\ (Local.native d = Some false <-> ~ Exists native_source_path files).
Proof.
  intros H d Hd.
  apply getLocalDepenencies_returned in H as [deps [_ H]].
  apply scanDependencies_returned in H as [_ HF].
  assert (Hex : exists kv files,
             promiseFiles env (dependencyFolder (fst kv)) = Some files
             /\ d = Local.mk (fst kv) (as_string (snd kv)) (Some (hasNativeFiles files))).
  { clear -HF Hd. induction HF as [|kv d' es ds Hkv _ IH]; [destruct Hd|].
    destruct Hd as [->|Hd]; [|auto]. destruct Hkv as [fs Hfs]. now exists kv, fs. }
  destruct Hex as [kv [files [Hp ->]]]. simpl. exists files. split; [assumption|].
  rewrite <- hasNativeFiles_spec. destruct (hasNativeFiles files); split.
  - tauto.
  - split; [discriminate | intros H; now elim H].
  - split; [discriminate | intros H; discriminate].
  - split; [intros _ H; discriminate | reflexivity].
Qed.

Lemma native_classification_witness :
  exists files,
    promiseFiles Examples.projectEnv (dependencyFolder "@capacitor/camera") = Some files
    /\ (Some true = Some true <-> Exists native_source_path files)
    /\ (Some true = Some false <-> ~ Exists native_source_path files).
Proof.
  apply (native_classification Examples.projectEnv []
           [Local.mk "@capacitor/camera" "5.0.0" (Some true);
            Local.mk "lodash" "4.17.21" (Some false)]
           eq_refl (Local.mk "@capacitor/camera" "5.0.0" (Some true))).
  left. reflexivity.
Defined.

(** C8.  Once the manifest checks have passed, a declared dependency
    whose installed directory is absent makes [getLocalDepenencies]
    report it and end the process, whatever the other dependencies
    are; [checkCompatibility] ends there, with the same log, before the
    remote side is fetched and before anything is reconciled. *)
Theorem missing_folder_is_fatal
    (env : Env) (supabase : SupabaseClient) (appId channel : string)
    (dependencies : jsval) (key : string) (value : jsval) :
  readManifest env = ([], Returned dependencies) ->
  In (key, value) (Object_entries dependencies) ->
  existsSync env (dependencyFolder key) = false ->
  exists log,
    getLocalDepenencies env = (log, Exited)
    /\ In (DependencyFolderMissing key) log
    /\ checkCompatibility env supabase appId channel = (log, Exited).
Proof.
  intros Hm Hin Hf.
  destruct (fails_with_exited _ _ (scanDependencies_missing _ _ _ _ Hin Hf))
    as [log [Hs Hl]].
  rewrite <- (getLocalDepenencies_scan _ _ Hm) in Hs.
  exists log. repeat split; trivial.
  now apply checkCompatibility_local_exit.
Qed.

Lemma missing_folder_is_fatal_witness :
  exists log,
    getLocalDepenencies Examples.missingFolderEnv = (log, Exited)
    /\ In (DependencyFolderMissing "lodash") log
    /\ checkCompatibility Examples.missingFolderEnv Examples.emptyListStore
         "app" "production" = (log, Exited).
Proof.
  apply (missing_folder_is_fatal Examples.missingFolderEnv Examples.emptyListStore
           "app" "production"
           (JObj [("@capacitor/camera", JStr "5.0.0"); ("lodash", JStr "4.17.21")])
           "lodash" (JStr "4.17.21")).
  - reflexivity.
  - right. left. reflexivity.
  - reflexivity.
Defined.

(** C9.  Once the manifest checks have passed, a dependency whose file
    tree cannot be read makes [getLocalDepenencies] report a failed
    scan and end the process: no list is returned, partial or not, and
    [checkCompatibility] produces no report.  The scan reported is the
    rejected one that settled first. *)
Theorem scan_failure_is_terminal
    (env : Env) (supabase : SupabaseClient) (appId channel : string)
    (dependencies : jsval) (key : string) (value : jsval) :
  readManifest env = ([], Returned dependencies) ->
  In (key, value) (Object_entries dependencies) ->
  existsSync env (dependencyFolder key) = true ->
  promiseFiles env (dependencyFolder key) = None ->
  exists log failed,
    promiseFiles env (dependencyFolder failed) = None
    /\ getLocalDepenencies env = (log, Exited)
    /\ In (ScanFailed failed) log
    /\ checkCompatibility env supabase appId channel = (log, Exited).
Proof.
  intros Hm Hin He Hp.
  destruct (scanDependencies_scan_failed _ _ _ _ Hin He Hp)
    as [k [v [_ [_ [Hk Hfail]]]]].
  destruct (fails_with_exited _ _ Hfail) as [log [Hs Hl]].
  rewrite <- (getLocalDepenencies_scan _ _ Hm) in Hs.
  exists log, k. repeat split; trivial.
  now apply checkCompatibility_local_exit.
Qed.

Lemma scan_failure_is_terminal_witness :
  exists log failed,
    promiseFiles Examples.scanFailedEnv (dependencyFolder failed) = None
    /\ getLocalDepenencies Examples.scanFailedEnv = (log, Exited)
    /\ In (ScanFailed failed) log
    /\ checkCompatibility Examples.scanFailedEnv Examples.emptyListStore
         "app" "production" = (log, Exited).
Proof.
  apply (scan_failure_is_terminal Examples.scanFailedEnv Examples.emptyListStore
           "app" "production"
           (JObj [("@capacitor/camera", JStr "5.0.0"); ("lodash", JStr "4.17.21")])
           "lodash" (JStr "4.17.21")).
  - reflexivity.
  - right. left. reflexivity.
  - reflexivity.
  - reflexivity.
Defined.

(** ** The error ladder of the manifest *)

Lemma getLocalDepenencies_manifest_exit env l :
  readManifest env = (l, Exited) -> getLocalDepenencies env = (l, Exited).
Proof. intros H. unfold getLocalDepenencies. now apply bind_exited. Qed.

Lemma declared_versions entries L env :
  Forall (fun kv => typeof (snd kv) = TString) entries ->
  Forall2 (fun kv d =>
             exists files,
               promiseFiles env (dependencyFolder (fst kv)) = Some files
               /\ d = Local.mk (fst kv) (as_string (snd kv))
                               (Some (hasNativeFiles files)))
          entries L ->
  map (fun d => (Local.name d, JStr (Local.version d))) L = entries.
Proof.
  intros Hall HF. induction HF as [|[k v] d es ds [fs [_ ->]] _ IH]; [reflexivity|].
  inversion Hall as [|? ? Hv Hes]; subst. simpl in *.
  apply typeof_string in Hv as [s ->]. simpl. f_equal. auto.
Qed.

(** The rungs of the ladder, for every manifest that parses to a value
    other than [null]: each error ends the run with its own report,
    and past the ladder none of them is reported and the returned list
    holds every declared dependency with its declared version. *)
Lemma manifest_error_ladder (env : Env) :
  (existsSync env "./package.json" = false ->
   getLocalDepenencies env = ([ManifestMissing], Exited))
  /\ (existsSync env "./package.json" = true -> packageJson env = None ->
      getLocalDepenencies env = ([ManifestMalformed], Exited))
  /\ (forall manifest dependencies,
        existsSync env "./package.json" = true ->
        packageJson env = Some manifest ->
        get_prop manifest "dependencies" = ret dependencies ->
        (truthy dependencies = false ->
         getLocalDepenencies env = ([DependenciesSectionMissing], Exited))
        /\ (truthy dependencies = true ->
            Exists (fun kv => typeof (snd kv) <> TString) (Object_entries dependencies) ->
            exists key, getLocalDepenencies env = ([DependencyValueInvalid key], Exited))
        /\ (truthy dependencies = true ->
            Forall (fun kv => typeof (snd kv) = TString) (Object_entries dependencies) ->
            existsSync env "./node_modules/" = false ->
            getLocalDepenencies env = ([InstalledPackagesMissing], Exited))
        /\ (truthy dependencies = true ->
            Forall (fun kv => typeof (snd kv) = TString) (Object_entries dependencies) ->
            existsSync env "./node_modules/" = true ->
            (forall m, In m (log_of (getLocalDepenencies env)) ->
                       exists key, m = DependencyFolderMissing key \/ m = ScanFailed key)
            /\ (forall l L, getLocalDepenencies env = (l, Returned L) ->
                  map (fun d => (Local.name d, JStr (Local.version d))) L
                  = Object_entries dependencies))).
Proof.
  split; [|split].
  - intros H. apply getLocalDepenencies_manifest_exit, manifest_missing, H.
  - intros H1 H2. now apply getLocalDepenencies_manifest_exit, manifest_malformed.
  - intros manifest deps H1 H2 H3. split; [|split; [|split]].
    + intros Ht. apply getLocalDepenencies_manifest_exit.
      now apply (dependencies_section_missing env manifest H1 H2 deps).
    + intros Ht Hex.
      destruct (dependency_value_invalid env manifest H1 H2 deps H3 Ht Hex)
        as [k [v [_ [_ Hr]]]].
      exists k. now apply getLocalDepenencies_manifest_exit.
    + intros Ht Hall Hn. apply getLocalDepenencies_manifest_exit.
      now apply (installed_packages_missing env manifest H1 H2 deps).
    + intros Ht Hall Hn.
      pose proof (manifest_accepted env manifest H1 H2 deps H3 Ht Hall Hn) as Hm.
      rewrite (getLocalDepenencies_scan _ _ Hm). split.
      * intros m Hin.
        destruct (earliest env (rights (map (scanOne env) (Object_entries deps))))
          as [k|] eqn:E.
        -- rewrite (scanDependencies_rejected _ _ _ E) in Hin. simpl in Hin.
           apply in_app_or in Hin as [Hin|[<-|[]]]; [|exists k; now right].
           unfold missingFolderMessages in Hin.
           apply in_map_iff in Hin as [kv [<- _]]. exists (fst kv). now left.
        -- apply earliest_None in E.
           rewrite (scanDependencies_settled _ _ E) in Hin. simpl in Hin.
           unfold missingFolderMessages in Hin.
           apply in_map_iff in Hin as [kv [<- _]]. exists (fst kv). now left.
      * intros l L HL. apply scanDependencies_returned in HL as [_ HF].
        now apply (declared_versions _ _ env).
Qed.

(** C7, the input on which the ladder breaks.  A [package.json] that
    holds the JSON text [null] exists and parses, and it declares no
    dependency mapping; destructuring it on line 418 throws, so the run
    ends with an uncaught [TypeError] and without the report of a
    missing dependencies section.  On every other manifest the ladder
    is as claimed, see [manifest_error_ladder]. *)
Theorem null_manifest_breaks_ladder :
  existsSync Examples.nullManifestEnv "./package.json" = true
  /\ packageJson Examples.nullManifestEnv = Some JNull
  /\ getLocalDepenencies Examples.nullManifestEnv = ([], Threw TypeError)
  /\ ~ fails_with (getLocalDepenencies Examples.nullManifestEnv)
                  DependenciesSectionMissing.
Proof.
  repeat split. intros [H _]. discriminate H.
Qed.

(** ** [getRemoteDepenencies]: the validation of the entries *)

Lemma nonempty_string_check v :
  negb (truthy v) || negb (jstype_eqb (typeof v) TString) = false
  <-> exists s, v = JStr s /\ s <> "".
Proof.
  rewrite orb_false_iff, !negb_false_iff. split.
  - intros [Ht Hs]. apply jstype_eqb_eq, typeof_string in Hs as [s ->].
    exists s. split; [reflexivity|]. simpl in Ht. apply negb_true_iff in Ht.
    now apply String.eqb_neq.
  - intros [s [-> Hs]]. simpl. split; [|reflexivity].
    apply negb_true_iff. now apply String.eqb_neq.
Qed.

Lemma checkEntry_object props :
  checkEntry (JObj props)
  = (let name := match assoc "name" props with Some x => x | None => JUndefined end in
     let version := match assoc "version" props with Some x => x | None => JUndefined end in
     if negb (truthy name) || negb (jstype_eqb (typeof name) TString)
     then ([NativeMetadataMalformed NameField], Exited)
     else if negb (truthy version) || negb (jstype_eqb (typeof version) TString)
          then ([NativeMetadataMalformed VersionField], Exited)
          else ([], Returned (Remote.mk (as_string name) (as_string version)))).
Proof.
  unfold checkEntry. simpl.
  destruct (negb (truthy _) || _); simpl; [reflexivity|].
  destruct (negb (truthy _) || _); reflexivity.
Qed.

Lemma checkEntry_null : checkEntry JNull = ([], Threw TypeError).
Proof. reflexivity. Qed.

Lemma checkEntry_valid data :
  valid_entry data -> exists package, checkEntry data = ([], Returned package).
Proof.
  intros [props [n [v [-> [Hn [Hne [Hv Hve]]]]]]].
  rewrite checkEntry_object, Hn, Hv. simpl.
  assert (H1 : negb (truthy (JStr n)) || negb (jstype_eqb (typeof (JStr n)) TString) = false)
    by (apply nonempty_string_check; eauto).
  assert (H2 : negb (truthy (JStr v)) || negb (jstype_eqb (typeof (JStr v)) TString) = false)
    by (apply nonempty_string_check; eauto).
  simpl in H1, H2. rewrite H1, H2. now eexists.
Qed.

Lemma checkEntry_returned data l package :
  checkEntry data = (l, Returned package) -> l = [] /\ valid_entry data.
Proof.
  destruct data; try (simpl; discriminate).
  rewrite checkEntry_object. cbv zeta.
  destruct (negb (truthy _) || _) eqn:E1; [discriminate|].
  destruct (negb (truthy _) || _) eqn:E2 in |- *; [discriminate|].
  intros H. inversion H; subst. split; [reflexivity|].
  apply nonempty_string_check in E1 as [n [Hn Hne]].
  apply nonempty_string_check in E2 as [v [Hv Hve]].
  exists props, n, v. repeat split; trivial.
  - destruct (assoc "name" props); [now subst | discriminate].
  - destruct (assoc "version" props); [now subst | discriminate].
Qed.

(** Every entry that is not valid, [null] apart, ends the run with the
    report of a malformed entry. *)
Lemma checkEntry_invalid data :
  ~ valid_entry data -> data <> JNull ->
  exists f, checkEntry data = ([NativeMetadataMalformed f], Exited).
Proof.
  intros Hinv Hnull.
  destruct data; try (now exists DataField); try congruence.
  - now exists NameField.
  - rewrite checkEntry_object. cbv zeta.
    destruct (negb (truthy _) || _) eqn:E1; [now exists NameField|].
    destruct (negb (truthy _) || _) eqn:E2 in |- *; [now exists VersionField|].
    exfalso. apply Hinv.
    apply nonempty_string_check in E1 as [n [Hn Hne]].
    apply nonempty_string_check in E2 as [v [Hv Hve]].
    exists props, n, v. repeat split; trivial.
    + destruct (assoc "name" props); [now subst | discriminate].
    + destruct (assoc "version" props); [now subst | discriminate].
Qed.

Lemma forEach_returned elems : forall l packages,
  forEach checkEntry elems = (l, Returned packages) ->
  l = [] /\ Forall valid_entry elems.
Proof.
  induction elems as [|data tl IH]; simpl; intros l packages H.
  - inversion H. auto.
  - apply bind_returned in H as [l1 [package [l2 [H1 [H2 ->]]]]].
    apply checkEntry_returned in H1 as [-> Hv].
    apply bind_returned in H2 as [l3 [packages' [l4 [H3 [H4 ->]]]]].
    apply IH in H3 as [-> Hall]. inversion H4; subst. auto.
Qed.

Lemma forEach_malformed elems :
  Exists (fun data => ~ valid_entry data) elems ->
  ~ In JNull elems ->
  exists f, forEach checkEntry elems = ([NativeMetadataMalformed f], Exited).
Proof.
  induction elems as [|data tl IH]; intros Hex Hnull; [inversion Hex|].
  simpl. destruct (checkEntry data) as [l o] eqn:E.
  destruct o as [package| |e].
  - apply checkEntry_returned in E as [-> Hv].
    inversion Hex as [? ? Hhd|? ? Htl]; subst; [contradiction|].
    destruct (IH Htl) as [f Hf]; [intros H; apply Hnull; now right|].
    exists f. simpl. rewrite Hf. reflexivity.
  - assert (Hinv : ~ valid_entry data).
    { intros Hv. apply checkEntry_valid in Hv as [pk Hpk]. congruence. }
    destruct (checkEntry_invalid data Hinv) as [f Hf].
    + intros ->. apply Hnull. now left.
    + exists f. rewrite Hf in E. inversion E; subst. reflexivity.
  - assert (Hinv : ~ valid_entry data).
    { intros Hv. apply checkEntry_valid in Hv as [pk Hpk]. congruence. }
    destruct (checkEntry_invalid data Hinv) as [f Hf].
    + intros ->. apply Hnull. now left.
    + rewrite Hf in E. discriminate.
Qed.

Section RemoteRow.
Variable supabase : SupabaseClient.
Variables appId channel : string.
Variables row version : list (string * jsval).
Hypothesis Hno_error : error (supabase appId channel) = None.
Hypothesis Hrow : data (supabase appId channel) = JObj row.
Hypothesis Hversion : assoc "version" row = Some (JObj version).

(** The run up to line 504, for a channel bound to a version. *)
Lemma getRemoteDepenencies_row :
  getRemoteDepenencies supabase appId channel
  = (let castedRemoteNativePackages :=
       match assoc "native_packages" version with Some x => x | None => JUndefined end in
     fail_if (negb (truthy castedRemoteNativePackages)) NativeMetadataMissing ;;
     match castedRemoteNativePackages with
     | JArr elems => packages <- forEach checkEntry elems ;; ret (mapPackages packages)
     | _ => throw TypeError
     end).
Proof.
  unfold getRemoteDepenencies. rewrite Hno_error, Hrow. simpl.
  rewrite Hversion. simpl.
  match goal with |- _ = ?y => now destruct y end.
Qed.

Lemma getRemoteDepenencies_list elems :
  assoc "native_packages" version = Some (JArr elems) ->
  getRemoteDepenencies supabase appId channel
  = (packages <- forEach checkEntry elems ;; ret (mapPackages packages)).
Proof.
  intros H. rewrite getRemoteDepenencies_row, H. simpl.
  now destruct (_ ;; _).
Qed.

(** The validation is all or nothing: with one entry that is not valid
    no map is returned, and unless [null] is among the entries the run
    ends with the report of a malformed entry. *)
Lemma remote_validation_all_or_nothing elems :
  assoc "native_packages" version = Some (JArr elems) ->
  Exists (fun data => ~ valid_entry data) elems ->
  (forall l R, getRemoteDepenencies supabase appId channel <> (l, Returned R))
  /\ (~ In JNull elems ->
      exists f, getRemoteDepenencies supabase appId channel
                = ([NativeMetadataMalformed f], Exited)).
Proof.
  intros Hl Hex. rewrite (getRemoteDepenencies_list _ Hl). split.
  - intros l R H. apply bind_returned in H as [l1 [pk [l2 [H1 _]]]].
    apply forEach_returned in H1 as [_ Hall].
    apply Exists_exists in Hex as [d [Hin Hd]].
    apply Hd. rewrite Forall_forall in Hall. now apply Hall.
  - intros Hnull. destruct (forEach_malformed _ Hex Hnull) as [f Hf].
    exists f. now rewrite Hf.
Qed.

End RemoteRow.

(** The example of the specification: one entry with a numeric name
    ends the run with the report of a malformed entry, the valid entry
    before it notwithstanding. *)
Lemma numeric_name_is_malformed :
  getRemoteDepenencies Examples.numericNameStore "app" "production"
  = ([NativeMetadataMalformed NameField], Exited).
Proof. reflexivity. Qed.

(** C4, the input on which the validation breaks.  A list that holds
    [null] holds an entry that is not an object and has neither name
    nor version; [typeof null] is ['object'], so the check of line 508
    lets it through and destructuring it on line 513 throws.  The run
    ends with an uncaught [TypeError], not with the report of a
    malformed entry.  No map is returned on this input either, and on
    every list without [null] the validation is as claimed, see
    [remote_validation_all_or_nothing]. *)
Theorem null_entry_escapes_validation :
  ~ valid_entry JNull
  /\ getRemoteDepenencies Examples.nullEntryStore "app" "production"
     = ([], Threw TypeError)
  /\ (forall f, ~ fails_with (getRemoteDepenencies Examples.nullEntryStore "app" "production")
                             (NativeMetadataMalformed f)).
Proof.
  split; [|split].
  - intros [props [n [v [H _]]]]. discriminate H.
  - reflexivity.
  - intros f [H _]. discriminate H.
Qed.

(** ** [getRemoteDepenencies]: absent metadata *)

(** C10.  For a channel bound to a version whose [native_packages] is
    absent or [null], [getRemoteDepenencies] reports missing metadata
    and ends the process, so [checkCompatibility] never returns a
    report, whatever the local side; when [native_packages] is the
    empty list nothing is reported and the remote map is empty. *)
Theorem absent_metadata_is_not_an_empty_list
    (supabase : SupabaseClient) (appId channel : string)
    (row version : list (string * jsval)) :
  error (supabase appId channel) = None ->
  data (supabase appId channel) = JObj row ->
  assoc "version" row = Some (JObj version) ->
  ((assoc "native_packages" version = None
    \/ assoc "native_packages" version = Some JNull) ->
   getRemoteDepenencies supabase appId channel = ([NativeMetadataMissing], Exited)
   /\ (forall env res,
         outcome_of (checkCompatibility env supabase appId channel) <> Returned res))
  /\ (assoc "native_packages" version = Some (JArr []) ->
      getRemoteDepenencies supabase appId channel = ([], Returned [])).
Proof.
  intros He Hd Hv. split.
  - intros Habsent.
    assert (Hr : getRemoteDepenencies supabase appId channel
                 = ([NativeMetadataMissing], Exited)).
    { rewrite (getRemoteDepenencies_row _ _ _ _ _ He Hd Hv).
      destruct Habsent as [-> | ->]; reflexivity. }
    split; [exact Hr|].
    intros env res. unfold checkCompatibility.
    destruct (getLocalDepenencies env) as [l [L| |e]]; simpl; try discriminate.
    rewrite Hr. simpl. discriminate.
  - intros Hempty.
    rewrite (getRemoteDepenencies_list _ _ _ _ _ He Hd Hv _ Hempty). reflexivity.
Qed.

Lemma absent_metadata_is_not_an_empty_list_witness :
  (getRemoteDepenencies Examples.noMetadataStore "app" "production"
   = ([NativeMetadataMissing], Exited)
   /\ (forall env res,
         outcome_of (checkCompatibility env Examples.noMetadataStore "app" "production")
         <> Returned res))
  /\ getRemoteDepenencies Examples.emptyListStore "app" "production" = ([], Returned []).
Proof.
  split.
  - apply (absent_metadata_is_not_an_empty_list Examples.noMetadataStore
             "app" "production" [("version", JObj [])] []);
      [reflexivity | reflexivity | reflexivity | left; reflexivity].
  - apply (absent_metadata_is_not_an_empty_list Examples.emptyListStore
             "app" "production"
             [("version", JObj [("native_packages", JArr [])])]
             [("native_packages", JArr [])]);
      reflexivity.
Defined.

(** ** A returning run of [checkCompatibility] *)

Lemma getRemoteDepenencies_returned supabase appId channel l R :
  getRemoteDepenencies supabase appId channel = (l, Returned R) ->
  l = [] /\ exists packages, R = mapPackages packages.
Proof.
  unfold getRemoteDepenencies. intros H.
  apply bind_returned in H as [l1 [[] [l2 [H1 [H2 ->]]]]].
  assert (l1 = []) as ->.
  { destruct (error (supabase appId channel)); simpl in H1; now inversion H1. }
  apply bind_returned in H2 as [l3 [casted [l4 [H3 [H4 ->]]]]].
  assert (l3 = []) as ->.
  { destruct (data (supabase appId channel)) as [| | | | | |row]; simpl in H3;
      try discriminate; try (inversion H3; reflexivity).
    destruct (match assoc "version" row with Some x => x | None => JUndefined end);
      simpl in H3; try discriminate; now inversion H3. }
  apply bind_returned in H4 as [l5 [[] [l6 [H5 [H6 ->]]]]].
  assert (l5 = []) as ->.
  { destruct (negb (truthy casted)); simpl in H5; [discriminate | now inversion H5]. }
  destruct casted; try discriminate.
  apply bind_returned in H6 as [l7 [packages [l8 [H7 [H8 ->]]]]].
  apply forEach_returned in H7 as [-> _]. inversion H8; subst.
  split; [reflexivity | now exists packages].
Qed.

(** What [checkCompatibility] returns is the reconciliation of what the
    two sides returned, and nothing was reported on the way. *)
Lemma checkCompatibility_returned env supabase appId channel l res :
  checkCompatibility env supabase appId channel = (l, Returned res) ->
  exists L packages,
    l = []
    /\ getLocalDepenencies env = ([], Returned L)
    /\ getRemoteDepenencies supabase appId channel = ([], Returned (mapPackages packages))
    /\ res = {| finalCompatibility := finalDepenencies L (mapPackages packages);
                localDependencies := L |}.
Proof.
  unfold checkCompatibility. intros H.
  apply bind_returned in H as [l1 [L [l2 [H1 [H2 ->]]]]].
  apply bind_returned in H2 as [l3 [R [l4 [H3 [H4 ->]]]]].
  destruct (getLocalDepenencies_returned _ _ _ H1) as [deps [Hm Hs]].
  assert (HL : getLocalDepenencies env = ([], Returned L))
    by now rewrite (getLocalDepenencies_scan _ _ Hm).
  assert (l1 = []) as -> by congruence.
  destruct (getRemoteDepenencies_returned _ _ _ _ _ H3) as [-> [packages ->]].
  inversion H4; subst. exists L, packages. repeat split; assumption.
Qed.

(** The names of the returned local dependencies are the keys of the
    declared mapping, hence distinct when the mapping is an object. *)
Lemma getLocalDepenencies_names env l L dependencies :
  readManifest env = ([], Returned dependencies) ->
  getLocalDepenencies env = (l, Returned L) ->
  map Local.name L = map fst (Object_entries dependencies).
Proof.
  intros Hm H. rewrite (getLocalDepenencies_scan _ _ Hm) in H.
  apply scanDependencies_returned in H as [_ HF].
  induction HF as [|kv d es ds [fs [_ ->]] _ IH]; simpl; [reflexivity|].
  now rewrite IH.
Qed.

Lemma getLocalDepenencies_distinct env l L props :
  readManifest env = ([], Returned (JObj props)) ->
  wf_object props ->
  getLocalDepenencies env = (l, Returned L) ->
  NoDup (map Local.name L).
Proof.
  intros Hm Hwf H. rewrite (getLocalDepenencies_names _ _ _ _ Hm H). exact Hwf.
Qed.

(* ================================================================= *)
(** * Properties of the other functions *)

Local Open Scope io_scope.

(** ** [convertAppName] *)

(** X1.  The converted name holds no dot. *)
Theorem convertAppName_no_dot (appName : string) :
  ~ In "."%char (list_ascii_of_string (convertAppName appName)).
Proof.
  induction appName as [|c rest IH]; simpl; [tauto|].
  destruct (Ascii.eqb_spec c "."%char) as [->|Hne]; simpl.
  - intros [H|[H|H]]; [discriminate | discriminate | auto].
  - intros [H|H]; [congruence | auto].
Qed.

(** X2.  Converting is done piece by piece: the conversion of a name
    put together from two parts is the two conversions put together. *)
Theorem convertAppName_append (a b : string) :
  convertAppName (a ++ b) = (convertAppName a ++ convertAppName b)%string.
Proof.
  induction a as [|c a IH]; simpl; [reflexivity|].
  rewrite IH. now destruct (Ascii.eqb c ".").
Qed.

Lemma no_hyphen_cons c s : no_hyphen (String c s) -> c <> "-"%char /\ no_hyphen s.
Proof.
  unfold no_hyphen. simpl. intros H. split.
  - intros ->. apply H. now left.
  - intros Hs. apply H. now right.
Qed.

(** X3.  Two names without a hyphen that convert to the same string
    are the same name. *)
Theorem convertAppName_injective (a b : string) :
  no_hyphen a -> no_hyphen b ->
  convertAppName a = convertAppName b -> a = b.
Proof.
  revert b. induction a as [|c a IH]; intros [|d b] Ha Hb; simpl.
  - reflexivity.
  - destruct (Ascii.eqb d "."); discriminate.
  - destruct (Ascii.eqb c "."); discriminate.
  - apply no_hyphen_cons in Ha as [Hc Ha]. apply no_hyphen_cons in Hb as [Hd Hb].
    destruct (Ascii.eqb_spec c "."%char) as [->|Hcn];
      destruct (Ascii.eqb_spec d "."%char) as [->|Hdn]; intros H; inversion H; subst.
    + f_equal. now apply IH.
    + congruence.
    + congruence.
    + f_equal. now apply IH.
Qed.

Lemma convertAppName_injective_witness : "com.example.app" = "com.example.app".
Proof.
  apply (convertAppName_injective "com.example.app" "com.example.app").
  - unfold no_hyphen. simpl. intuition discriminate.
  - unfold no_hyphen. simpl. intuition discriminate.
  - reflexivity.
Defined.

(** X4.  With hyphens the conversion is not injective: a name with a
    dot and the name with two hyphens in its place convert alike,
    whatever stands before and after. *)
Theorem convertAppName_collision (a b : string) :
  (a ++ "." ++ b)%string <> (a ++ "--" ++ b)%string
  /\ convertAppName (a ++ "." ++ b) = convertAppName (a ++ "--" ++ b).
Proof.
  split.
  - induction a as [|c a IH]; simpl; intros H; inversion H. auto.
  - induction a as [|c a IH]; [reflexivity|]. simpl in *. now rewrite IH.
Qed.

(** ** More on the compatibility check *)

Lemma assoc_set {V : Type} (k k' : string) (v : V) (m : list (string * V)) :
  assoc k (JsMap.set k' v m) = if k' =? k then Some v else assoc k m.
Proof.
  induction m as [|[k1 v1] tl IH]; simpl; [reflexivity|].
  destruct (String.eqb_spec k1 k') as [->|Hne]; simpl.
  - now destruct (k' =? k).
  - rewrite IH. destruct (String.eqb_spec k1 k) as [->|Hk]; [|reflexivity].
    destruct (String.eqb_spec k' k) as [->|_]; [now elim Hne | reflexivity].
Qed.

Lemma assoc_app {V : Type} (k : string) (l1 l2 : list (string * V)) :
  assoc k (l1 ++ l2) = match assoc k l1 with Some v => Some v | None => assoc k l2 end.
Proof.
  induction l1 as [|[k1 v1] tl IH]; simpl; [reflexivity|].
  now destruct (k1 =? k).
Qed.

(** Setting the entries one after the other: the last value set for a
    key is the one that is read. *)
Lemma assoc_fold_set {V : Type} (k : string) (es : list (string * V)) :
  forall m,
    assoc k (fold_left (fun o kv => JsMap.set (fst kv) (snd kv) o) es m)
    = match assoc k (rev es) with Some v => Some v | None => assoc k m end.
Proof.
  induction es as [|[k1 v1] tl IH]; intros m; simpl; [reflexivity|].
  rewrite IH, assoc_app, assoc_set. simpl.
  destruct (assoc k (rev tl)); [reflexivity|].
  now destruct (k1 =? k).
Qed.

Lemma assoc_map_find (k : string) (packages : list Remote.t) :
  assoc k (map (fun a => (Remote.name a, a)) packages)
  = find (fun a => Remote.name a =? k) packages.
Proof.
  induction packages as [|a tl IH]; simpl; [reflexivity|].
  now destruct (Remote.name a =? k).
Qed.

(** X5.  When the remote list names a package more than once, the map
    holds its last entry: looking a name up gives the last package of
    the list with that name. *)
Theorem mapPackages_last_wins (packages : list Remote.t) (n : string) :
  JsMap.get (mapPackages packages) n
  = find (fun a => Remote.name a =? n) (rev packages).
Proof.
  unfold JsMap.get, mapPackages, JsMap.of_entries.
  rewrite assoc_fold_set, <- map_rev, assoc_map_find. simpl.
  now destruct (find _ _).
Qed.

(** X6.  Every entry of the report has a version on at least one side,
    and no name has both a LocalOnly and a RemoteOnly entry, for any
    local list and any remote map. *)
Theorem finalDepenencies_sides (L : list Local.t) (R : JsMap.t Remote.t) :
  (forall e, In e (finalDepenencies L R) ->
             Entry.localVersion e <> None \/ Entry.remoteVersion e <> None)
  /\ (forall n l r, In (LocalOnly n l) (finalDepenencies L R) ->
                    ~ In (RemoteOnly n r) (finalDepenencies L R)).
Proof.
  assert (Hlocal : forall e, In e (localPass L R) ->
                     Entry.localVersion e <> None
                     /\ In (Entry.name e) (map Local.name L)).
  { intros e He. unfold localPass in He. apply in_map_iff in He as [a [<- Ha]].
    apply filter_In in Ha as [Ha _].
    destruct (JsMap.get R (Local.name a)); simpl; (split; [discriminate | now apply in_map]). }
  assert (Hremote : forall e, In e (removeNotInLocal L R) ->
                      Entry.localVersion e = None /\ Entry.remoteVersion e <> None
                      /\ ~ In (Entry.name e) (map Local.name L)).
  { intros e He. apply removeNotInLocal_In in He as [n [rp [_ [Hn ->]]]].
    simpl. repeat split; [discriminate | assumption]. }
  unfold finalDepenencies. split.
  - intros e He. apply in_app_or in He as [He|He].
    + left. now apply Hlocal.
    + right. now apply Hremote.
  - intros n l r Hl Hr.
    apply in_app_or in Hl as [Hl|Hl];
      [|apply Hremote in Hl as [Hl _]; discriminate Hl].
    apply in_app_or in Hr as [Hr|Hr];
      [apply Hlocal in Hr as [Hr _]; now elim Hr|].
    apply Hlocal in Hl as [_ Hl]. apply Hremote in Hr as [_ [_ Hr]]. now apply Hr.
Qed.



(** X8.  When the local side does not return, the remote side plays no
    part: the run ends as the local side ended, with its log, whatever
    the store would answer. *)
Theorem local_failure_hides_remote
    (env : Env) (store1 store2 : SupabaseClient) (appId channel : string) :
  (forall L, outcome_of (getLocalDepenencies env) <> Returned L) ->
  checkCompatibility env store1 appId channel
  = checkCompatibility env store2 appId channel
  /\ log_of (checkCompatibility env store1 appId channel)
     = log_of (getLocalDepenencies env).
Proof.
  intros H. unfold checkCompatibility.
  destruct (getLocalDepenencies env) as [l [L| |e]]; simpl in *.
  - now elim (H L).
  - auto.
  - auto.
Qed.

Lemma local_failure_hides_remote_witness :
  checkCompatibility Examples.missingFolderEnv Examples.emptyListStore "app" "production"
  = checkCompatibility Examples.missingFolderEnv Examples.nullEntryStore "app" "production"
  /\ log_of (checkCompatibility Examples.missingFolderEnv Examples.emptyListStore
               "app" "production")
     = log_of (getLocalDepenencies Examples.missingFolderEnv).
Proof.
  apply (local_failure_hides_remote Examples.missingFolderEnv).
  intros L. discriminate.
Defined.

(** X9.  The other ways the remote side fails: a failed query is
    reported with its message whatever data came with it; a channel
    without a version is reported as unreadable metadata; and a
    [native_packages] that is truthy but not a list is not reported at
    all, the call of [forEach] on it throws. *)
Theorem getRemoteDepenencies_other_failures
    (supabase : SupabaseClient) (appId channel : string) :
  (forall msg, error (supabase appId channel) = Some msg ->
     getRemoteDepenencies supabase appId channel = ([ChannelLookupFailed msg], Exited))
  /\ (forall row,
        error (supabase appId channel) = None ->
        data (supabase appId channel) = JObj row ->
        (assoc "version" row = None \/ assoc "version" row = Some JNull) ->
        getRemoteDepenencies supabase appId channel = ([NativeMetadataUnreadable], Exited))
  /\ (forall row version v,
        error (supabase appId channel) = None ->
        data (supabase appId channel) = JObj row ->
        assoc "version" row = Some (JObj version) ->
        assoc "native_packages" version = Some v ->
        truthy v = true ->
        (forall elems, v <> JArr elems) ->
        getRemoteDepenencies supabase appId channel = ([], Threw TypeError)).
Proof.
  split; [|split].
  - intros msg H. unfold getRemoteDepenencies. rewrite H. reflexivity.
  - intros row He Hd Hv. unfold getRemoteDepenencies. rewrite He, Hd. simpl.
    destruct Hv as [-> | ->]; reflexivity.
  - intros row version v He Hd Hv Hn Ht Harr.
    rewrite (getRemoteDepenencies_row _ _ _ _ _ He Hd Hv), Hn. simpl.
    rewrite Ht. simpl. destruct v; try reflexivity; try discriminate.
    now elim (Harr elems).
Qed.

Lemma getRemoteDepenencies_other_failures_witness :
  getRemoteDepenencies (Examples.channelRow (JObj [])) "app" "production"
  = ([], Threw TypeError).
Proof.
  destruct (getRemoteDepenencies_other_failures
              (Examples.channelRow (JObj [])) "app" "production") as [_ [_ H]].
  apply (H [("version", JObj [("native_packages", JObj [])])]
           [("native_packages", JObj [])] (JObj [])); try reflexivity.
  intros elems. discriminate.
Defined.

(** X10.  The native flag only grows with the files enumerated: the
    files of two enumerations put together hold a native file exactly
    when one of the enumerations does. *)
Theorem hasNativeFiles_app (files1 files2 : list string) :
  hasNativeFiles (files1 ++ files2) = hasNativeFiles files1 || hasNativeFiles files2.
Proof. rewrite !hasNativeFiles_existsb. apply existsb_app. Qed.



Lemma checkEntry_valid_value data :
  valid_entry data ->
  checkEntry data
  = ([], Returned (Remote.mk (as_string (optional data "name"))
                             (as_string (optional data "version")))).
Proof.
  intros [props [n [v [-> [Hn [Hne [Hv Hve]]]]]]].
  rewrite checkEntry_object. unfold optional, lookup. rewrite Hn, Hv. cbv zeta.
  assert (H1 : negb (truthy (JStr n)) || negb (jstype_eqb (typeof (JStr n)) TString) = false)
    by (apply nonempty_string_check; eauto).
  assert (H2 : negb (truthy (JStr v)) || negb (jstype_eqb (typeof (JStr v)) TString) = false)
    by (apply nonempty_string_check; eauto).
  now rewrite H1, H2.
Qed.

Lemma forEach_valid elems :
  Forall valid_entry elems ->
  forEach checkEntry elems
  = ([], Returned (map (fun data => Remote.mk (as_string (optional data "name"))
                                             (as_string (optional data "version")))
                       elems)).
Proof.
  induction 1 as [|data tl Hd _ IH]; simpl; [reflexivity|].
  rewrite (checkEntry_valid_value _ Hd). simpl. rewrite IH. reflexivity.
Qed.

(** X12.  The remote side succeeds on a list of valid entries: nothing
    is reported, and the map returned is built from the entries in
    their order, each with its name and version as recorded. *)
Theorem getRemoteDepenencies_succeeds
    (supabase : SupabaseClient) (appId channel : string)
    (row version : list (string * jsval)) (elems : list jsval) :
  error (supabase appId channel) = None ->
  data (supabase appId channel) = JObj row ->
  assoc "version" row = Some (JObj version) ->
  assoc "native_packages" version = Some (JArr elems) ->
  Forall valid_entry elems ->
  getRemoteDepenencies supabase appId channel
  = ([], Returned
           (mapPackages
              (map (fun data => Remote.mk (as_string (optional data "name"))
                                          (as_string (optional data "version")))
                   elems))).
Proof.
  intros He Hd Hv Hn Hall.
  rewrite (getRemoteDepenencies_list _ _ _ _ _ He Hd Hv _ Hn).
  rewrite (forEach_valid _ Hall). reflexivity.
Qed.

Lemma getRemoteDepenencies_succeeds_witness :
  getRemoteDepenencies Examples.shadowStore "app" "production"
  = ([], Returned (mapPackages [Remote.mk "X" "1.0.0"])).
Proof.
  apply (getRemoteDepenencies_succeeds Examples.shadowStore "app" "production"
           [("version",
             JObj [("native_packages",
                    JArr [JObj [("name", JStr "X"); ("version", JStr "1.0.0")]])])]
           [("native_packages",
             JArr [JObj [("name", JStr "X"); ("version", JStr "1.0.0")]])]
           [JObj [("name", JStr "X"); ("version", JStr "1.0.0")]]);
    try reflexivity.
  constructor; [|constructor].
  exists [("name", JStr "X"); ("version", JStr "1.0.0")], "X", "1.0.0".
  repeat split; discriminate.
Defined.

(** ** [regexSemver] *)

Lemma Lang_Chr c s : RegExp.Lang (RegExp.Chr c) s <-> s = [c].
Proof.
  simpl. split.
  - intros [c' [-> H]]. apply Ascii.eqb_eq in H. now subst.
  - intros ->. exists c. split; [reflexivity | apply Ascii.eqb_refl].
Qed.

Lemma Lang_numericIdentifier s :
  RegExp.Lang numericIdentifier s <->
  s = ["0"%char]
  \/ exists c rest, s = c :: rest /\ nonzero_digit c = true /\ forallb digit rest = true.
Proof.
  unfold numericIdentifier.
  change (RegExp.Lang (RegExp.Alt ?a ?b) s) with (RegExp.Lang a s \/ RegExp.Lang b s).
  rewrite Lang_Chr. split.
  - intros [H|[s1 [s2 [-> [[c [-> Hc]] Hs]]]]]; [now left|].
    right. exists c, s2. apply RegExpFacts.Lang_Star_Class in Hs. auto.
  - intros [H|[c [rest [-> [Hc Hr]]]]]; [now left|].
    right. exists [c], rest. repeat split.
    + exists c. auto.
    + now apply RegExpFacts.Lang_Star_Class.
Qed.

Lemma numeric_identifier_list (s : string) :
  numeric_identifier s <-> RegExp.Lang numericIdentifier (list_ascii_of_string s).
Proof.
  rewrite Lang_numericIdentifier. unfold numeric_identifier. split.
  - intros [->|[c [rest [-> [Hc Hr]]]]]; [now left|].
    right. exists c, (list_ascii_of_string rest). auto.
  - intros [H|[c [rest [H [Hc Hr]]]]].
    + left. rewrite <- (string_of_list_ascii_of_string s), H. reflexivity.
    + right. exists c, (string_of_list_ascii rest).
      rewrite list_ascii_of_string_of_list_ascii. repeat split; trivial.
      rewrite <- (string_of_list_ascii_of_string s), H. reflexivity.
Qed.

Lemma Lang_Cat_intro a b s1 s2 :
  RegExp.Lang a s1 -> RegExp.Lang b s2 -> RegExp.Lang (RegExp.Cat a b) (s1 ++ s2).
Proof. intros H1 H2. exists s1, s2. auto. Qed.

Lemma Lang_Chr_cons c b s :
  RegExp.Lang b s -> RegExp.Lang (RegExp.Cat (RegExp.Chr c) b) (c :: s).
Proof. intros H. apply (Lang_Cat_intro _ _ [c] s); [now apply Lang_Chr | exact H]. Qed.

(** X13.  Three numeric identifiers joined by dots are a version that
    [regexSemver] accepts. *)
Theorem regexSemver_accepts_core (major minor patch : string) :
  numeric_identifier major ->
  numeric_identifier minor ->
  numeric_identifier patch ->
  regexSemver_test (major ++ "." ++ minor ++ "." ++ patch) = true.
Proof.
  intros HM Hm Hp. unfold regexSemver_test. apply RegExpFacts.matches_Lang.
  apply numeric_identifier_list in HM, Hm, Hp.
  rewrite !list_ascii_of_string_app. simpl list_ascii_of_string. simpl app.
  unfold regexSemver.
  apply Lang_Cat_intro; [assumption|]. apply Lang_Chr_cons.
  apply Lang_Cat_intro; [assumption|]. apply Lang_Chr_cons.
  rewrite <- (app_nil_r (list_ascii_of_string patch)).
  apply Lang_Cat_intro; [assumption|].
  apply (Lang_Cat_intro _ _ [] []); left; reflexivity.
Qed.

Lemma regexSemver_accepts_core_witness : regexSemver_test "10.0.3" = true.
Proof.
  apply (regexSemver_accepts_core "10" "0" "3").
  - right. exists "1"%char, "0". repeat split.
  - left. reflexivity.
  - right. exists "3"%char, "". repeat split.
Defined.

(** X14.  A version that [regexSemver] accepts starts with three
    numeric identifiers joined by dots; what follows them, if
    anything, starts with a hyphen or a plus sign. *)
Theorem regexSemver_shape (version : string) :
  regexSemver_test version = true ->
  exists major minor patch rest : string,
    version = (major ++ "." ++ minor ++ "." ++ patch ++ rest)%string
    /\ numeric_identifier major
    /\ numeric_identifier minor
    /\ numeric_identifier patch
    /\ (rest = "" \/ startsWith rest "-" = true \/ startsWith rest "+" = true).
Proof.
  unfold regexSemver_test. intros H. apply RegExpFacts.matches_Lang in H.
  unfold regexSemver in H.
  destruct H as [M [r1 [E1 [HM H]]]].
  destruct H as [d1 [r2 [-> [Hd1 H]]]].
  destruct H as [m [r3 [-> [Hm H]]]].
  destruct H as [d2 [r4 [-> [Hd2 H]]]].
  destruct H as [p [r5 [-> [Hp H]]]].
  destruct H as [pre [build [-> [Hpre Hbuild]]]].
  apply Lang_Chr in Hd1, Hd2. subst d1 d2.
  exists (string_of_list_ascii M), (string_of_list_ascii m), (string_of_list_ascii p),
         (string_of_list_ascii (pre ++ build)).
  split; [|split; [|split; [|split]]].
  - rewrite <- (string_of_list_ascii_of_string version), E1.
    rewrite !string_of_list_ascii_app. simpl. reflexivity.
  - apply numeric_identifier_list. now rewrite list_ascii_of_string_of_list_ascii.
  - apply numeric_identifier_list. now rewrite list_ascii_of_string_of_list_ascii.
  - apply numeric_identifier_list. now rewrite list_ascii_of_string_of_list_ascii.
  - destruct Hpre as [->|[h [t [-> [Hh _]]]]].
    + destruct Hbuild as [->|[h [t [-> [Hh _]]]]].
      * now left.
      * apply Lang_Chr in Hh. subst h. right. right. reflexivity.
    + apply Lang_Chr in Hh. subst h. right. left. reflexivity.
Qed.

Lemma regexSemver_shape_witness :
  exists major minor patch rest : string,
    "1.2.3-beta.1+build" = (major ++ "." ++ minor ++ "." ++ patch ++ rest)%string
    /\ numeric_identifier major
    /\ numeric_identifier minor
    /\ numeric_identifier patch
    /\ (rest = "" \/ startsWith rest "-" = true \/ startsWith rest "+" = true).
Proof.
  apply (regexSemver_shape "1.2.3-beta.1+build"). reflexivity.
Defined.

(** X15.  A major number written with a leading zero is refused,
    whatever follows. *)
Theorem regexSemver_rejects_leading_zero (d : ascii) (rest : string) :
  digit d = true ->
  regexSemver_test (String "0" (String d rest)) = false.
Proof.
  intros Hd. destruct (regexSemver_test _) eqn:E; [|reflexivity]. exfalso.
  unfold regexSemver_test in E. apply RegExpFacts.matches_Lang in E.
  unfold regexSemver in E. simpl list_ascii_of_string in E.
  destruct E as [M [r1 [E1 [HM [d1 [r2 [-> [Hd1 _]]]]]]]].
  apply Lang_Chr in Hd1. subst d1.
  apply Lang_numericIdentifier in HM as [->|[c [t [-> [Hc Ht]]]]].
  - simpl in E1. inversion E1; subst. discriminate Hd.
  - simpl in E1. inversion E1; subst. discriminate Hc.
Qed.

Lemma regexSemver_rejects_leading_zero_witness : regexSemver_test "01.2.3" = false.
Proof.
  apply (regexSemver_rejects_leading_zero "1"%char ".2.3"). reflexivity.
Defined.

(** ** [getFiles], [findMainFile] *)

Lemma Lang_mainRegex (suf : list ascii) :
  RegExp.Lang mainRegex suf <->
  exists stem ext : string,
    suf = list_ascii_of_string stem ++ "."%char :: list_ascii_of_string ext
    /\ In stem ["main"; "index"] /\ In ext ["ts"; "tsx"; "js"; "jsx"].
Proof.
  unfold mainRegex.
  change (RegExp.Lang (RegExp.Cat ?a ?b) suf) with
    (exists s1 s2, suf = s1 ++ s2 /\ RegExp.Lang a s1 /\ RegExp.Lang b s2).
  split.
  - intros [st [s2 [-> [Hst [dot [ext [-> [Hdot Hext]]]]]]]].
    apply Lang_Chr in Hdot. subst dot.
    assert (Hs : exists stem, st = list_ascii_of_string stem /\ In stem ["main"; "index"]).
    { destruct Hst as [H|H]; apply RegExpFacts.Lang_Lit in H;
        [exists "main" | exists "index"]; (split; [exact H | simpl; tauto]). }
    assert (He : exists e, ext = list_ascii_of_string e /\ In e ["ts"; "tsx"; "js"; "jsx"]).
    { destruct Hext as [H|[H|[H|H]]]; apply RegExpFacts.Lang_Lit in H;
        [exists "ts" | exists "tsx" | exists "js" | exists "jsx"];
        (split; [exact H | simpl; tauto]). }
    destruct Hs as [stem [-> Hs]]. destruct He as [e [-> He]]. exists stem, e. auto.
  - intros [stem [ext [-> [Hs He]]]].
    exists (list_ascii_of_string stem), ("."%char :: list_ascii_of_string ext).
    split; [reflexivity | split].
    + destruct Hs as [<-|[<-|[]]]; [left | right]; now apply RegExpFacts.Lang_Lit.
    + apply Lang_Chr_cons.
      destruct He as [<-|[<-|[<-|[<-|[]]]]].
      * left. now apply RegExpFacts.Lang_Lit.
      * right. left. now apply RegExpFacts.Lang_Lit.
      * right. right. left. now apply RegExpFacts.Lang_Lit.
      * right. right. right. now apply RegExpFacts.Lang_Lit.
Qed.

Lemma mainRegex_accepts (path : string) :
  mainRegex_test path = true -> main_file_path path.
Proof.
  unfold mainRegex_test, main_file_path.
  rewrite RegExpFacts.test_at_end_spec.
  intros [pre [suf [Hp Hl]]].
  apply Lang_mainRegex in Hl as [stem [ext [-> [Hs He]]]].
  exists (string_of_list_ascii pre), stem, ext. repeat split; trivial.
  rewrite <- (string_of_list_ascii_of_string path), Hp.
  rewrite !string_of_list_ascii_app. simpl.
  now rewrite !string_of_list_ascii_of_string.
Qed.

(** X16.  [mainRegex] looks at the end of the path only: it accepts the
    paths that end in [main] or [index], a dot and one of ts, tsx, js,
    jsx, whatever stands before, be it a slash or the rest of a longer
    file name. *)
Theorem mainRegex_test_spec (path : string) :
  mainRegex_test path = true <-> main_file_path path.
Proof.
  split; [apply mainRegex_accepts|].
  unfold mainRegex_test, main_file_path.
  rewrite RegExpFacts.test_at_end_spec.
  intros [pre [stem [ext [-> [Hs He]]]]].
  exists (list_ascii_of_string pre),
         (list_ascii_of_string stem ++ "."%char :: list_ascii_of_string ext).
  split.
  - now rewrite !list_ascii_of_string_app.
  - apply Lang_mainRegex. exists stem, ext. auto.
Qed.

Lemma dirent_induction (P : dirent -> Prop) :
  (forall name, P (File name)) ->
  (forall name, P (Directory name None)) ->
  (forall name dirents, Forall P dirents -> P (Directory name (Some dirents))) ->
  forall d, P d.
Proof.
  intros HF HN HS. fix IH 1. intros [name|name [dirents|]].
  - apply HF.
  - apply HS. induction dirents as [|d tl IHtl]; constructor; [apply IH | exact IHtl].
  - apply HN.
Qed.

Section ForOfFacts.
Variable A : Type.
Variable body : A -> generated.

Lemma yieldEach_sound xs : forall ys e,
  yieldEach body xs = (ys, e) ->
  forall y, In y ys -> exists x, In x xs /\ In y (fst (body x)).
Proof.
  induction xs as [|x tl IH]; simpl; intros ys e H y Hy.
  - inversion H; subst. destruct Hy.
  - destruct (body x) as [ys1 [failed|]] eqn:E.
    + inversion H; subst. exists x. rewrite E. auto.
    + destruct (yieldEach body tl) as [ys2 e2] eqn:E2. inversion H; subst.
      apply in_app_or in Hy as [Hy|Hy].
      * exists x. rewrite E. auto.
      * destruct (IH _ _ eq_refl y Hy) as [x' [Hx' Hy']]. exists x'. auto.
Qed.

Lemma yieldEach_complete xs : forall ys,
  yieldEach body xs = (ys, None) ->
  forall x, In x xs -> snd (body x) = None /\ forall y, In y (fst (body x)) -> In y ys.
Proof.
  induction xs as [|x tl IH]; simpl; intros ys H x' Hx'; [destruct Hx'|].
  destruct (body x) as [ys1 [failed|]] eqn:E; [discriminate|].
  destruct (yieldEach body tl) as [ys2 e2] eqn:E2. inversion H; subst.
  destruct Hx' as [<-|Hx'].
  - rewrite E. split; [reflexivity|]. intros y Hy. apply in_or_app. now left.
  - destruct (IH _ eq_refl x' Hx') as [Hn Hin]. split; [assumption|].
    intros y Hy. apply in_or_app. right. auto.
Qed.

Lemma yieldEach_app xs more :
  yieldEach body (xs ++ more)
  = match yieldEach body xs with
    | (ys, Some failed) => (ys, Some failed)
    | (ys, None) => let (ys', e) := yieldEach body more in (ys ++ ys', e)
    end.
Proof.
  induction xs as [|x tl IH]; simpl.
  - now destruct (yieldEach body more).
  - destruct (body x) as [ys1 [failed|]]; [reflexivity|].
    rewrite IH. destruct (yieldEach body tl) as [ys2 [f2|]]; [reflexivity|].
    destruct (yieldEach body more) as [ys3 e3]. now rewrite app_assoc.
Qed.
End ForOfFacts.

Lemma getFiles_dirent_reached (d : dirent) :
  forall dir ys e,
    getFiles_dirent dir d = (ys, e) ->
    (forall p, In p ys -> reached dir d p)
    /\ (e = None -> forall p, reached dir d p -> In p ys).
Proof.
  induction d as [name|name|name dirents IH] using dirent_induction;
    intros dir ys e H; simpl in H.
  - inversion H; subst. split.
    + intros p [<-|[]]. constructor.
    + intros _ p Hp. inversion Hp; subst. now left.
  - destruct (walksInto name) eqn:Ew; inversion H; subst; split.
    + intros p [].
    + discriminate.
    + intros p [<-|[]]. now constructor.
    + intros _ p Hp. inversion Hp; subst. now left.
  - destruct (walksInto name) eqn:Ew.
    + split.
      * intros p Hp.
        destruct (yieldEach_sound _ _ _ _ _ H p Hp) as [d [Hd Hin]].
        rewrite Forall_forall in IH.
        destruct (getFiles_dirent (resolve dir name) d) as [ys' e'] eqn:E.
        apply (@reached_inside dir name dirents d p Ew Hd).
        now apply (IH d Hd _ _ _ E).
      * intros -> p Hp. inversion Hp; subst; [congruence|].
        match goal with Hd : In ?d dirents, Hr : reached _ ?d p |- _ =>
          destruct (yieldEach_complete _ _ _ _ H d Hd) as [Hn Hin];
          destruct (getFiles_dirent (resolve dir name) d) as [ys' e'] eqn:E;
          rewrite Forall_forall in IH;
          apply Hin; simpl in *; subst e'; now apply (IH d Hd _ _ _ E)
        end.
    + inversion H; subst. split.
      * intros p [<-|[]]. now constructor.
      * intros _ p Hp. inversion Hp; subst; [now left | congruence].
Qed.

(** X17.  What [getFiles] yields are paths reached from the entries of
    the directory: files, and directories it does not walk into, found
    by going down through directories it walks into only; and when no
    read fails it yields every such path. *)
Theorem getFiles_reached (dir : string) (dirents : list dirent)
    (ys : list string) (e : option string) :
  getFiles dir (Some dirents) = (ys, e) ->
  (forall p, In p ys -> exists d, In d dirents /\ reached dir d p)
  /\ (e = None -> forall d p, In d dirents -> reached dir d p -> In p ys).
Proof.
  simpl. intros H. split.
  - intros p Hp. destruct (yieldEach_sound _ _ _ _ _ H p Hp) as [d [Hd Hin]].
    exists d. split; [assumption|].
    destruct (getFiles_dirent dir d) as [ys' e'] eqn:E.
    now apply (getFiles_dirent_reached d _ _ _ E).
  - intros -> d p Hd Hr.
    destruct (yieldEach_complete _ _ _ _ H d Hd) as [Hn Hin].
    destruct (getFiles_dirent dir d) as [ys' e'] eqn:E. simpl in *. subst e'.
    apply Hin. now apply (getFiles_dirent_reached d _ _ _ E).
Qed.

Lemma getFiles_reached_witness :
  (forall p, In p ["/app/src/main.ts"; "/app/node_modules"] ->
             exists d, In d [Directory "src" (Some [File "main.ts"]);
                             Directory "node_modules" None]
                       /\ reached "/app" d p)
  /\ (@None string = None ->
      forall d p, In d [Directory "src" (Some [File "main.ts"]);
                        Directory "node_modules" None] ->
                  reached "/app" d p ->
                  In p ["/app/src/main.ts"; "/app/node_modules"]).
Proof.
  apply (getFiles_reached "/app"
           [Directory "src" (Some [File "main.ts"]); Directory "node_modules" None]).
  reflexivity.
Defined.

Lemma startsWith_append (a b : string) : startsWith (a ++ b) a = true.
Proof.
  induction a as [|c a IH]; simpl; [reflexivity|].
  now rewrite Ascii.eqb_refl, IH.
Qed.

Lemma startsWith_trans (r : string) : forall p q,
  startsWith p q = true -> startsWith q r = true -> startsWith p r = true.
Proof.
  induction r as [|c r IH]; intros p q Hpq Hqr; simpl; [reflexivity|].
  destruct q as [|d q]; simpl in Hqr; [discriminate|].
  apply andb_true_iff in Hqr as [Hc Hr]. apply Ascii.eqb_eq in Hc. subst d.
  destruct p as [|e p]; simpl in Hpq; [discriminate|].
  apply andb_true_iff in Hpq as [He Hp]. rewrite He. simpl. now apply (IH p q).
Qed.

Lemma resolve_startsWith (dir name : string) : startsWith (resolve dir name) dir = true.
Proof.
  unfold resolve. destruct (String.eqb_spec dir "/") as [->|_].
  - reflexivity.
  - apply startsWith_append.
Qed.

Lemma reached_startsWith dir d p : reached dir d p -> startsWith p dir = true.
Proof.
  induction 1 as [dir name|dir name content _|dir name dirents d p _ _ _ IH].
  - apply resolve_startsWith.
  - apply resolve_startsWith.
  - apply (startsWith_trans dir p (resolve dir name) IH), resolve_startsWith.
Qed.

Lemma find_app {A : Type} (f : A -> bool) (l1 l2 : list A) :
  find f (l1 ++ l2) = match find f l1 with Some x => Some x | None => find f l2 end.
Proof.
  induction l1 as [|a l1 IH]; simpl; [reflexivity|]. now destruct (f a).
Qed.

(** X18.  What [findMainFile] returns, when it is not the empty
    string, is a path reached from the entries of the working
    directory, hence under it, that ends as a main file does and that
    has at most two more components than the working directory; the
    one message written names it. *)
Theorem findMainFile_found (pwd : string) (content : option (list dirent))
    (l : list notice) (f : string) :
  findMainFile pwd content = (l, Ok f) ->
  f <> "" ->
  l = [Info ("Found main file here " ++ f)]
  /\ main_file_path f
  /\ (split_length f <= split_length pwd + 2)%nat
  /\ startsWith f pwd = true
  /\ exists dirents d, content = Some dirents /\ In d dirents /\ reached pwd d f.
Proof.
  unfold findMainFile. intros H Hf.
  destruct (getFiles pwd content) as [ys e] eqn:E.
  destruct (find (isMainFile (split_length pwd)) ys) as [f'|] eqn:Efind.
  - simpl in H. inversion H; subst. apply find_some in Efind as [Hin Hmain].
    unfold isMainFile in Hmain. apply andb_true_iff in Hmain as [Hdepth Hre].
    apply Z.leb_le in Hdepth.
    destruct content as [dirents|]; [|simpl in E; inversion E; subst; destruct Hin].
    simpl in E. destruct (yieldEach_sound _ _ _ _ _ E f Hin) as [d [Hd Hy]].
    assert (Hr : reached pwd d f).
    { destruct (getFiles_dirent pwd d) as [ys' e'] eqn:Ed.
      now apply (getFiles_dirent_reached d _ _ _ Ed). }
    repeat split.
    + now apply mainRegex_accepts.
    + lia.
    + now apply (reached_startsWith pwd d).
    + exists dirents, d. auto.
  - destruct e as [dir|]; simpl in H; inversion H; subst. now elim Hf.
Qed.

Lemma findMainFile_found_witness :
  [Info "Found main file here /app/src/main.ts"]
  = [Info ("Found main file here " ++ "/app/src/main.ts")]
  /\ main_file_path "/app/src/main.ts"
  /\ (split_length "/app/src/main.ts" <= split_length "/app" + 2)%nat
  /\ startsWith "/app/src/main.ts" "/app" = true
  /\ exists dirents d,
       Some [File "package.json"; Directory "src" (Some [File "main.ts"])] = Some dirents
       /\ In d dirents /\ reached "/app" d "/app/src/main.ts".
Proof.
  apply (findMainFile_found "/app"
           (Some [File "package.json"; Directory "src" (Some [File "main.ts"])])).
  - reflexivity.
  - discriminate.
Defined.

(** X19.  The search stops at the first match: once a main file is
    found among the entries read so far, the entries that come after
    them do not matter, be they unreadable directories. *)
Theorem findMainFile_stops_at_first_match
    (pwd : string) (dirents more : list dirent) (l : list notice) (f : string) :
  findMainFile pwd (Some dirents) = (l, Ok f) ->
  f <> "" ->
  findMainFile pwd (Some (dirents ++ more)) = (l, Ok f).
Proof.
  unfold findMainFile, getFiles. intros H Hf. rewrite yieldEach_app.
  destruct (yieldEach (getFiles_dirent pwd) dirents) as [ys [failed|]] eqn:E.
  - exact H.
  - destruct (find (isMainFile (split_length pwd)) ys) as [f'|] eqn:Efind.
    + destruct (yieldEach (getFiles_dirent pwd) more) as [ys' e'].
      rewrite find_app, Efind. exact H.
    + simpl in H. inversion H; subst. now elim Hf.
Qed.

Lemma findMainFile_stops_at_first_match_witness :
  findMainFile "/app" (Some ([File "index.js"] ++ [Directory "locked" None]))
  = ([Info "Found main file here /app/index.js"], Ok "/app/index.js").
Proof.
  apply (findMainFile_stops_at_first_match "/app" [File "index.js"]
           [Directory "locked" None]).
  - reflexivity.
  - discriminate.
Defined.

(** X20.  Every path that [getFiles] yields starts with the directory
    it was asked to walk, whether or not a read fails on the way. *)
Theorem getFiles_under_dir (dir : string) (content : option (list dirent))
    (ys : list string) (e : option string) :
  getFiles dir content = (ys, e) ->
  forall p, In p ys -> startsWith p dir = true.
Proof.
  intros H p Hp. destruct content as [dirents|]; simpl in H.
  - destruct (yieldEach_sound _ _ _ _ _ H p Hp) as [d [Hd Hy]].
    apply (reached_startsWith dir d).
    destruct (getFiles_dirent dir d) as [ys' e'] eqn:Ed.
    now apply (getFiles_dirent_reached d _ _ _ Ed).
  - inversion H; subst. destruct Hp.
Qed.

Lemma getFiles_under_dir_witness : startsWith "/app/src/main.ts" "/app" = true.
Proof.
  apply (getFiles_under_dir "/app"
           (Some [Directory "src" (Some [File "main.ts"; Directory "lib" None])])
           ["/app/src/main.ts"] (Some "/app/src/lib")).
  - reflexivity.
  - left. reflexivity.
Defined.

(** ** [findSavedKey] *)

Section SavedKeyFacts.
Variable trim : string -> string.
Variable fs : Fs.t.

Let globalPath : string := (Fs.homedir fs ++ "/.capgo")%string.

(** Every way the two files can be: there or not, readable or not,
    blank or not. *)
Ltac savedKey_cases quiet :=
  unfold findSavedKey, readKey; fold globalPath;
  destruct (Fs.existsSync fs globalPath) eqn:Eg;
  destruct (Fs.readFileSync fs globalPath) as [cg|] eqn:Erg;
  destruct (Fs.existsSync fs ".capgo") eqn:El;
  destruct (Fs.readFileSync fs ".capgo") as [cl|] eqn:Erl;
  destruct quiet; simpl;
  try (destruct (trim cg =? "") eqn:Etg; simpl; rewrite ?Etg; simpl);
  try (destruct (trim cl =? "") eqn:Etl; simpl; rewrite ?Etl; simpl).

(** X21.  The key that [findSavedKey] returns is never empty.  It is
    the trimmed content of the file in the home directory when that
    file exists, and otherwise, or when that content trims to nothing,
    the trimmed content of the local file. *)
Theorem findSavedKey_key (quiet : bool) (l : list notice) (key : string) :
  findSavedKey trim fs quiet = (l, Ok key) ->
  key <> ""
  /\ ((Fs.existsSync fs globalPath = true
       /\ exists content, Fs.readFileSync fs globalPath = Some content
                          /\ key = trim content)
      \/ ((Fs.existsSync fs globalPath = false
           \/ exists content, Fs.readFileSync fs globalPath = Some content
                              /\ trim content = "")
          /\ Fs.existsSync fs ".capgo" = true
          /\ exists content, Fs.readFileSync fs ".capgo" = Some content
                             /\ key = trim content)).
Proof.
  savedKey_cases quiet; try discriminate;
    intros H; inversion H; subst;
    (split; [apply String.eqb_neq; assumption|]);
    first
      [ left; split; [reflexivity|]; eexists; split; reflexivity
      | right; split;
        [ first [ left; reflexivity
                | right; eexists; split; [reflexivity | apply String.eqb_eq; assumption] ]
        | split; [reflexivity|]; eexists; split; reflexivity ] ].
Qed.

(** X22.  [quiet] silences the messages about where the key was found
    and nothing else: the call ends the same way with and without it,
    and what the quiet call writes are the errors of the other. *)
Theorem findSavedKey_quiet :
  ending_of (findSavedKey trim fs true) = ending_of (findSavedKey trim fs false)
  /\ notices (findSavedKey trim fs true)
     = filter is_error (notices (findSavedKey trim fs false)).
Proof.
  unfold findSavedKey, readKey; fold globalPath;
  destruct (Fs.existsSync fs globalPath) eqn:Eg;
  destruct (Fs.readFileSync fs globalPath) as [cg|] eqn:Erg;
  destruct (Fs.existsSync fs ".capgo") eqn:El;
  destruct (Fs.readFileSync fs ".capgo") as [cl|] eqn:Erl;
  simpl;
  try (destruct (trim cg =? "") eqn:Etg; simpl; rewrite ?Etg; simpl);
  try (destruct (trim cl =? "") eqn:Etl; simpl; rewrite ?Etl; simpl);
  split; reflexivity.
Qed.
End SavedKeyFacts.

Lemma findSavedKey_key_witness :
  "secret" <> ""
  /\ ((true = true /\ exists content, Some "" = Some content /\ "secret" = content)
      \/ ((true = false \/ exists content, Some "" = Some content /\ content = "")
          /\ true = true
          /\ exists content, Some "secret" = Some content /\ "secret" = content)).
Proof.
  apply (findSavedKey_key (fun s => s) MoreExamples.keyFiles true [] "secret").
  reflexivity.
Defined.

(** ** [getLocalConfig], [getRemoteConfig], [createSupabaseClient] *)

Lemma lookup_set (k k' : string) (v : jsval) (m : list (string * jsval)) :
  lookup (JsMap.set k' v m) k = if k' =? k then v else lookup m k.
Proof. unfold lookup. rewrite assoc_set. now destruct (k' =? k). Qed.

Lemma assoc_spread (a b : list (string * jsval)) (k : string) :
  assoc k (spread a b) = assoc k (rev b ++ rev a).
Proof.
  unfold spread. rewrite assoc_fold_set, rev_app_distr. simpl.
  now destruct (assoc k (rev b ++ rev a)).
Qed.


Lemma truthy_js_or (a : jsval) (s : string) :
  s <> "" -> truthy (js_or a (JStr s)) = true.
Proof.
  intros Hs. unfold js_or. destruct (truthy a) eqn:E; [exact E|].
  simpl. apply negb_true_iff. now apply String.eqb_neq.
Qed.

(** The local configuration of a project whose capacitor configuration
    loads. *)
Lemma getLocalConfig_loaded (config : jsval) :
  getLocalConfig (Some config)
  = ([], Ok (if truthy (updaterSetting config "localSupa")
                && truthy (updaterSetting config "localSupaAnon")
             then [("host", js_or (updaterSetting config "localHost") (JStr defaultHost));
                   ("hostWeb",
                    js_or (updaterSetting config "localWebHost") (JStr defaultHostWeb));
                   ("supaKey", updaterSetting config "localSupaAnon");
                   ("supaHost", updaterSetting config "localSupa")]
             else [("host", js_or (updaterSetting config "localHost") (JStr defaultHost));
                   ("hostWeb",
                    js_or (updaterSetting config "localWebHost") (JStr defaultHostWeb))])).
Proof.
  unfold getLocalConfig, getConfig. simpl.
  now destruct (truthy (updaterSetting config "localSupa")
                && truthy (updaterSetting config "localSupaAnon")).
Qed.

(** X23.  The server of [get_config] has no say on [host] and
    [hostWeb]: in the configuration that [getRemoteConfig] returns they
    are the ones of the capacitor configuration, or the defaults where
    it sets none, whatever the server answers and whether it answers;
    and they are never empty. *)
Theorem getRemoteConfig_hosts_are_local
    (loadConfig response : option jsval) (l : list notice)
    (config : list (string * jsval)) :
  getRemoteConfig loadConfig response = (l, Ok config) ->
  exists capacitor,
    loadConfig = Some capacitor
    /\ lookup config "host"
       = js_or (updaterSetting capacitor "localHost") (JStr defaultHost)
    /\ lookup config "hostWeb"
       = js_or (updaterSetting capacitor "localWebHost") (JStr defaultHostWeb)
    /\ truthy (lookup config "host") = true
    /\ truthy (lookup config "hostWeb") = true.
Proof.
  destruct loadConfig as [capacitor|]; [|destruct response; discriminate].
  unfold getRemoteConfig. rewrite getLocalConfig_loaded. intros H.
  exists capacitor. split; [reflexivity|].
  assert (Hh : lookup config "host"
               = js_or (updaterSetting capacitor "localHost") (JStr defaultHost)
               /\ lookup config "hostWeb"
                  = js_or (updaterSetting capacitor "localWebHost") (JStr defaultHostWeb)).
  { destruct response as [data|]; simpl in H; inversion H; subst; unfold lookup;
      rewrite ?assoc_spread;
      destruct (truthy (updaterSetting capacitor "localSupa")
                && truthy (updaterSetting capacitor "localSupaAnon"));
      split; reflexivity. }
  destruct Hh as [-> ->]. repeat split; apply truthy_js_or; discriminate.
Qed.

Lemma getRemoteConfig_hosts_are_local_witness :
  exists capacitor,
    Some MoreExamples.halfStoreConfig = Some capacitor
    /\ JStr "https://capgo.app"
       = js_or (updaterSetting capacitor "localHost") (JStr defaultHost)
    /\ JStr "https://web.capgo.app"
       = js_or (updaterSetting capacitor "localWebHost") (JStr defaultHostWeb)
    /\ true = true
    /\ true = true.
Proof.
  apply (getRemoteConfig_hosts_are_local (Some MoreExamples.halfStoreConfig)
           (Some (JObj MoreExamples.serverConfig)) []
           [("supaHost", JStr "https://store.example"); ("supaKey", JStr "server-key");
            ("host", JStr "https://capgo.app"); ("hostWeb", JStr "https://web.capgo.app")]).
  reflexivity.
Defined.





(** ** [verifyUser] *)

Section VerifyUserFacts.
Variable toString : jsval -> string.
Hypothesis toString_string : forall s, toString (JStr s) = s.

(** X26.  [verifyUser] is a gate in two steps.  A key that is not
    allowed ends the run with the two messages about the key, whatever
    [get_user_id] would answer; and what it returns is never empty: it
    is the text of the user id that [get_user_id] gave, for an allowed
    key, with no error and nothing written. *)
Theorem verifyUser_gate (access user : Response) (keymod : list string) :
  (truthy (data access) = false ->
   verifyUser toString access user keymod
   = ([Error "Invalid API key or insufficient permissions.";
       Error ("Your key should be: " ++ keymodeStr keymod ++ " mode.")], Exit))
  /\ (forall l userId,
        verifyUser toString access user keymod = (l, Ok userId) ->
        l = [] /\ userId <> ""
        /\ truthy (data access) = true
        /\ error user = None
        /\ truthy (data user) = true
        /\ userId = toString (data user)).
Proof.
  unfold verifyUser, checkKey. split.
  - intros H. rewrite H. reflexivity.
  - intros l userId. destruct (truthy (data access)) eqn:Ea; simpl; [|discriminate].
    unfold js_or. destruct (truthy (data user)) eqn:Eu.
    + destruct (toString (data user) =? "") eqn:Es; simpl; [discriminate|].
      destruct (error user); simpl; [discriminate|].
      intros H. inversion H; subst. repeat split. now apply String.eqb_neq.
    + rewrite toString_string. simpl. discriminate.
Qed.
End VerifyUserFacts.

Lemma verifyUser_gate_witness :
  (false = false ->
   verifyUser as_string {| data := JBool false; error := None |}
     {| data := JStr "user-1"; error := None |} ["all"]
   = ([Error "Invalid API key or insufficient permissions.";
       Error ("Your key should be: " ++ keymodeStr ["all"] ++ " mode.")], Exit))
  /\ (forall l userId,
        verifyUser as_string {| data := JBool false; error := None |}
          {| data := JStr "user-1"; error := None |} ["all"] = (l, Ok userId) ->
        l = [] /\ userId <> ""
        /\ false = true
        /\ @None string = None
        /\ true = true
        /\ userId = "user-1").
Proof.
  apply (verifyUser_gate as_string (fun s => eq_refl)
           {| data := JBool false; error := None |}
           {| data := JStr "user-1"; error := None |} ["all"]).
Defined.

(** ** [updateOrCreateChannel], [updateOrCreateVersion] *)

Lemma channelFilters_set (k : string) (v : jsval) (update : list (string * jsval)) :
  k <> "app_id" -> k <> "name" -> k <> "created_by" ->
  channelFilters (JsMap.set k v update) = channelFilters update.
Proof.
  intros H1 H2 H3. unfold channelFilters. rewrite !lookup_set.
  apply String.eqb_neq in H1, H2, H3. now rewrite H1, H2, H3.
Qed.

(** X27.  A statement for the store is only ever returned for a row
    that has its three keys: the row written is the object [update] as
    the call leaves it, its [app_id], [name] and [created_by] are
    those given and are not empty, and an update is filtered on those
    three. *)
Theorem updateOrCreateChannel_statement
    (update : list (string * jsval)) (existing : Response)
    (l : list notice) (after : list (string * jsval)) (stmt : statement) :
  updateOrCreateChannel update existing
  = (l, {| updateAfter := after; result := inl stmt |}) ->
  (stmt = InsertRow "channels" after
   \/ stmt = UpdateRows "channels" after (channelFilters update))
  /\ channelFilters after = channelFilters update
  /\ truthy (lookup update "app_id") = true
  /\ truthy (lookup update "name") = true
  /\ truthy (lookup update "created_by") = true.
Proof.
  unfold updateOrCreateChannel.
  destruct (truthy (lookup update "app_id")) eqn:E1; simpl; [|discriminate].
  destruct (truthy (lookup update "name")) eqn:E2; simpl; [|discriminate].
  destruct (truthy (lookup update "created_by")) eqn:E3; simpl; [|discriminate].
  destruct (truthy (data existing) && _).
  - destruct (truthy (optional (data existing) "enable_progressive_deploy")).
    + destruct (negb (truthy (optional (data existing) "secondVersion")));
        [discriminate|].
      intros H. inversion H; subst. clear H.
      assert (Hf : forall u, channelFilters
                     (JsMap.set "secondaryVersionPercentage" (JNum (1 # 10))
                        (JsMap.set "version" (optional (data existing) "secondVersion")
                           (JsMap.set "secondVersion" u update)))
                   = channelFilters update).
      { intros u. rewrite !channelFilters_set; solve [reflexivity | discriminate]. }
      rewrite Hf. repeat split. now right.
    + intros H. inversion H; subst. repeat split. now right.
  - intros H. inversion H; subst. repeat split. now left.
Qed.

Lemma updateOrCreateChannel_statement_witness :
  (InsertRow "channels" MoreExamples.upload = InsertRow "channels" MoreExamples.upload
   \/ InsertRow "channels" MoreExamples.upload
      = UpdateRows "channels" MoreExamples.upload (channelFilters MoreExamples.upload))
  /\ channelFilters MoreExamples.upload = channelFilters MoreExamples.upload
  /\ true = true /\ true = true /\ true = true.
Proof.
  apply (updateOrCreateChannel_statement MoreExamples.upload
           {| data := JNull; error := Some "no rows" |} []).
  reflexivity.
Defined.

(** X28.  In progressive deploy the uploaded version does not become
    the version of the channel: it is written as [secondVersion], the
    [secondVersion] of the channel is written as [version], the share
    is set back to 0.1, and nothing else of the row changes. *)
Theorem updateOrCreateChannel_progressive
    (update : list (string * jsval)) (existing : Response)
    (row : list (string * jsval)) :
  truthy (lookup update "app_id") = true ->
  truthy (lookup update "name") = true ->
  truthy (lookup update "created_by") = true ->
  data existing = JObj row ->
  error existing = None ->
  truthy (lookup row "enable_progressive_deploy") = true ->
  truthy (lookup row "secondVersion") = true ->
  exists l after,
    updateOrCreateChannel update existing
    = (l, {| updateAfter := after;
             result := inl (UpdateRows "channels" after (channelFilters update)) |})
    /\ lookup after "version" = lookup row "secondVersion"
    /\ lookup after "secondVersion" = lookup update "version"
    /\ lookup after "secondaryVersionPercentage" = JNum (1 # 10)
    /\ (forall k, k <> "version" -> k <> "secondVersion" ->
                  k <> "secondaryVersionPercentage" ->
                  lookup after k = lookup update k).
Proof.
  intros H1 H2 H3 Hd He Hp Hs. unfold updateOrCreateChannel.
  rewrite H1, H2, H3, Hd, He. simpl. rewrite Hp, Hs. simpl.
  rewrite !channelFilters_set by discriminate.
  eexists. eexists. split; [reflexivity|split; [|split; [|split]]].
  - rewrite !lookup_set. reflexivity.
  - rewrite !lookup_set. reflexivity.
  - rewrite !lookup_set. reflexivity.
  - intros k Hv Hsv Hpc. rewrite !lookup_set.
    apply not_eq_sym, String.eqb_neq in Hv, Hsv, Hpc. now rewrite Hv, Hsv, Hpc.
Qed.

Lemma updateOrCreateChannel_progressive_witness :
  exists l after,
    updateOrCreateChannel MoreExamples.upload
      {| data := JObj MoreExamples.progressiveRow; error := None |}
    = (l, {| updateAfter := after;
             result := inl (UpdateRows "channels" after
                              (channelFilters MoreExamples.upload)) |})
    /\ lookup after "version" = JNum 5
    /\ lookup after "secondVersion" = JNum 7
    /\ lookup after "secondaryVersionPercentage" = JNum (1 # 10)
    /\ (forall k, k <> "version" -> k <> "secondVersion" ->
                  k <> "secondaryVersionPercentage" ->
                  lookup after k = lookup MoreExamples.upload k).
Proof.
  apply (updateOrCreateChannel_progressive MoreExamples.upload
           {| data := JObj MoreExamples.progressiveRow; error := None |}
           MoreExamples.progressiveRow); reflexivity.
Defined.

(** X29.  A channel in progressive deploy that has no [secondVersion]
    makes the call fail with "missing secondVersion", yet the object
    [update] of the caller has been changed by then: its
    [secondVersion] is the uploaded version. *)
Theorem updateOrCreateChannel_rejection_leaves_a_trace
    (update : list (string * jsval)) (existing : Response)
    (row : list (string * jsval)) :
  truthy (lookup update "app_id") = true ->
  truthy (lookup update "name") = true ->
  truthy (lookup update "created_by") = true ->
  data existing = JObj row ->
  error existing = None ->
  truthy (lookup row "enable_progressive_deploy") = true ->
  truthy (lookup row "secondVersion") = false ->
  exists l after,
    updateOrCreateChannel update existing
    = (l, {| updateAfter := after; result := inr "missing secondVersion" |})
    /\ In (Error "missing secondVersion") l
    /\ lookup after "secondVersion" = lookup update "version"
    /\ (forall k, k <> "secondVersion" -> lookup after k = lookup update k).
Proof.
  intros H1 H2 H3 Hd He Hp Hs. unfold updateOrCreateChannel.
  rewrite H1, H2, H3, Hd, He. simpl. rewrite Hp, Hs. simpl.
  eexists. eexists. split; [reflexivity|]. split; [|split].
  - destruct (is_not_one _); simpl; auto.
  - rewrite lookup_set. reflexivity.
  - intros k Hk. rewrite lookup_set.
    apply not_eq_sym, String.eqb_neq in Hk. now rewrite Hk.
Qed.

Lemma updateOrCreateChannel_rejection_leaves_a_trace_witness :
  exists l after,
    updateOrCreateChannel MoreExamples.upload
      {| data := JObj MoreExamples.stalledRow; error := None |}
    = (l, {| updateAfter := after; result := inr "missing secondVersion" |})
    /\ In (Error "missing secondVersion") l
    /\ lookup after "secondVersion" = JNum 7
    /\ (forall k, k <> "secondVersion" -> lookup after k = lookup MoreExamples.upload k).
Proof.
  apply (updateOrCreateChannel_rejection_leaves_a_trace MoreExamples.upload
           {| data := JObj MoreExamples.stalledRow; error := None |}
           MoreExamples.stalledRow); reflexivity.
Defined.

(** X30.  A version that the store already has is brought back rather
    than inserted again: the statement updates the rows of that
    [app_id] and [name] with the object given, [deleted] set to false
    and nothing else changed. *)
Theorem updateOrCreateVersion_existing
    (update : list (string * jsval)) (existing : Response) :
  truthy (data existing) = true ->
  error existing = None ->
  exists after,
    updateOrCreateVersion update existing
    = {| updateAfter := after;
         result := inl (UpdateRows "app_versions" after
                          [("app_id", lookup update "app_id");
                           ("name", lookup update "name")]) |}
    /\ lookup after "deleted" = JBool false
    /\ (forall k, k <> "deleted" -> lookup after k = lookup update k).
Proof.
  intros Hd He. unfold updateOrCreateVersion. rewrite Hd, He. simpl.
  eexists. split; [|split].
  - rewrite !lookup_set. reflexivity.
  - rewrite lookup_set. reflexivity.
  - intros k Hk. rewrite lookup_set.
    apply not_eq_sym, String.eqb_neq in Hk. now rewrite Hk.
Qed.

Lemma updateOrCreateVersion_existing_witness :
  exists after,
    updateOrCreateVersion MoreExamples.upload {| data := JBool true; error := None |}
    = {| updateAfter := after;
         result := inl (UpdateRows "app_versions" after
                          [("app_id", lookup MoreExamples.upload "app_id");
                           ("name", lookup MoreExamples.upload "name")]) |}
    /\ lookup after "deleted" = JBool false
    /\ (forall k, k <> "deleted" -> lookup after k = lookup MoreExamples.upload k).
Proof.
  apply (updateOrCreateVersion_existing MoreExamples.upload
           {| data := JBool true; error := None |}); reflexivity.
Defined.
